(** * MyPortfolio: the blog-post inserter ([code.py]) and the git push
    worker ([git_push_gui.py])

    A shallow embedding of the two utilities and the properties of their
    core operations.

    Conventions of the embedding.
    - A Python [str] is a [string]; each character stands for the code
      point of the same number, so the model covers text over the code
      points 0..255.  On that range [\d] is [0-9], [str.lower] moves
      [A-Z] and the accented capitals of Latin-1 by 32, and the white
      space of [str.strip] is 9..13, 28..32, 133 and 160.
    - A Python [int] is an [N] or a [Z]: unbounded.  The conversions
      between an [int] and its decimal text, [int(s)] and [f"{n}"], raise
      [ValueError] beyond [sys.get_int_max_str_digits()] digits (4300
      unless set otherwise, 0 for no limit); the limit is a field of the
      platform.
    - The file system maps path names to directories, regular files and
      links.  A link stands for a symbolic link, which every call of the
      program follows, and for a further hard link to a file, as the
      program removes and renames nothing.  File contents are
      [list Byte.byte]; the text layer of [open] is a pair of partial
      functions of the platform.
    - The parser and the pretty printer of BeautifulSoup are parameters;
      the tree they produce and the tree operations the program calls
      ([find], [find_all], [get], [insert]) are modelled on an inductive
      tree, a node being addressed by its path from the root. *)

From Stdlib Require Import ZArith NArith Ascii String List Lia DecimalString.
From stdpp Require Import base gmap strings list sorting.

Local Open Scope N_scope.

(* ===================================================================== *)
(** * Part I: definitions                                                 *)
(* ===================================================================== *)

(** ** Calls that return or raise *)
Module Exc.

(** A call either returns or raises an [Exception] with a message. *)
Inductive outcome (A : Type) : Type :=
| Returned (a : A)
| Raised (e : string).
Arguments Returned {A} a.
Arguments Raised {A} e.

End Exc.

(** ** Python strings *)
Module PyStr.
Export Exc.

Definition nl : string := String "010"%char "".

(** [c.isspace()] for a code point below 256. *)
Definition isspace (c : ascii) : bool :=
  let n := N_of_ascii c in
  ((9 <=? n) && (n <=? 13)) || ((28 <=? n) && (n <=? 32))
  || (n =? 133) || (n =? 160).

(** [\d], and the characters [int] reads, below 256. *)
Definition isdigit (c : ascii) : bool :=
  let n := N_of_ascii c in (48 <=? n) && (n <=? 57).

Definition digit_value (c : ascii) : N := N_of_ascii c - 48.

(** [c.lower()] for a code point below 256. *)
Definition lower_char (c : ascii) : ascii :=
  let n := N_of_ascii c in
  if ((65 <=? n) && (n <=? 90))
     || ((192 <=? n) && (n <=? 222) && negb (n =? 215))
  then ascii_of_N (n + 32) else c.

Fixpoint lower (s : string) : string :=
  match s with
  | EmptyString => EmptyString
  | String c s' => String (lower_char c) (lower s')
  end.

Fixpoint lstrip (s : string) : string :=
  match s with
  | EmptyString => EmptyString
  | String c s' => if isspace c then lstrip s' else s
  end.

Fixpoint rstrip (s : string) : string :=
  match s with
  | EmptyString => EmptyString
  | String c s' =>
      match rstrip s' with
      | EmptyString => if isspace c then EmptyString else String c EmptyString
      | r => String c r
      end
  end.

(** [s.strip()] *)
Definition strip (s : string) : string := rstrip (lstrip s).

(** [s.split(sep)] for a separator of one character. *)
Fixpoint split (sep : ascii) (s : string) : list string :=
  match s with
  | EmptyString => [EmptyString]
  | String c s' =>
      if Ascii.eqb c sep then EmptyString :: split sep s'
      else match split sep s' with
           | hd :: tl => String c hd :: tl
           | [] => [String c EmptyString]
           end
  end.

(** [sep.join(l)] *)
Definition join (sep : string) (l : list string) : string :=
  String.concat sep l.

(** [''.join(l)] *)
Definition concat_all (l : list string) : string :=
  fold_right String.append EmptyString l.

(** [s.endswith(suffix)]: some tail of [s] is [suffix]. *)
Fixpoint endswith (s suffix : string) : bool :=
  String.eqb s suffix
  || match s with
     | EmptyString => false
     | String _ s' => endswith s' suffix
     end.

(** Truth value of a string: [if s]. *)
Definition truthy (s : string) : bool :=
  match s with EmptyString => false | _ => true end.

(** A string of decimal digits only. *)
Fixpoint all_digits (s : string) : bool :=
  match s with
  | EmptyString => true
  | String c s' => isdigit c && all_digits s'
  end.

(** The number a string of decimal digits denotes. *)
Fixpoint int_acc (acc : N) (s : string) : N :=
  match s with
  | EmptyString => acc
  | String c s' => int_acc (10 * acc + digit_value c) s'
  end.
Definition int_of_digits (s : string) : N := int_acc 0 s.

(** The decimal numeral of a number. *)
Definition numeral (n : N) : string := NilZero.string_of_uint (N.to_uint n).

(** The limit of CPython on the conversions between [int] and decimal
    text: with a limit [lim] other than 0 a conversion of more than
    [lim] digits raises [ValueError]. *)
Definition default_max_str_digits : N := 4300.

Definition exceeds (lim : N) (digits : nat) : bool :=
  (0 <? lim) && (lim <? N.of_nat digits).

Definition msg_limit_int (lim : N) (digits : nat) : string :=
  "Exceeds the limit (" +:+ numeral lim
  +:+ " digits) for integer string conversion: value has "
  +:+ numeral (N.of_nat digits)
  +:+ " digits; use sys.set_int_max_str_digits() to increase the limit".

Definition msg_limit_str (lim : N) : string :=
  "Exceeds the limit (" +:+ numeral lim
  +:+ " digits) for integer string conversion; "
  +:+ "use sys.set_int_max_str_digits() to increase the limit".

(** [int(s)] on text without sign, blank or underscore: the program
    passes a match of [\d+]. *)
Definition int (lim : N) (s : string) : outcome N :=
  if negb (truthy s && all_digits s) then
    Raised ("invalid literal for int() with base 10: '" +:+ s +:+ "'")
  else if exceeds lim (String.length s) then
    Raised (msg_limit_int lim (String.length s))
  else Returned (int_of_digits s).

(** [str(n)], and [n] in an f-string. *)
Definition str (lim : N) (n : N) : outcome string :=
  let s := numeral n in
  if exceeds lim (String.length s) then Raised (msg_limit_str lim)
  else Returned s.

(** [str(z)] for a number of a few digits. *)
Definition str_Z (z : Z) : string := NilZero.string_of_int (Z.to_int z).

(** The longest prefix of digits, and what follows it. *)
Fixpoint span_digits (s : string) : string * string :=
  match s with
  | EmptyString => (EmptyString, EmptyString)
  | String c s' =>
      if isdigit c
      then let '(ds, rest) := span_digits s' in (String c ds, rest)
      else (EmptyString, s)
  end.

(** [s[len(p):]] when [s] starts with [p]. *)
Fixpoint strip_prefix (p s : string) : option string :=
  match p, s with
  | EmptyString, _ => Some s
  | String a p', String b s' =>
      if Ascii.eqb a b then strip_prefix p' s' else None
  | String _ _, EmptyString => None
  end.

End PyStr.

(** ** The two regular expressions of [find_next_post_id] *)
Module Re.
Import PyStr.

(** [$] outside MULTILINE mode: at the end of the string, or just before
    a newline that is the last character. *)
Definition at_dollar (rest : string) : bool :=
  String.eqb rest EmptyString || String.eqb rest nl.

(** [re.compile(r'^post\d+$').search(s)].  [^] pins the match to the
    start; [\d+] is greedy, and giving digits back never helps as [$]
    cannot stand before a digit. *)
Definition search_post_id (s : string) : bool :=
  match strip_prefix "post" s with
  | Some r =>
      let '(ds, rest) := span_digits r in truthy ds && at_dollar rest
  | None => false
  end.

(** [re.match(r'post(\d+)', s)]: [Some] of group 1 on a match. *)
Definition match_post_num (s : string) : option string :=
  match strip_prefix "post" s with
  | Some r =>
      let '(ds, _) := span_digits r in
      if truthy ds then Some ds else None
  | None => None
  end.

End Re.

(** ** The BeautifulSoup tree *)
Module Soup.

Local Unset Elimination Schemes.
(** A [Tag] has a name, a dictionary of attributes (in source order, the
    keys distinct) and its [contents]; every other node of the tree is
    a string.  The [BeautifulSoup] object is the tag at the root. *)
Inductive node : Type :=
| Tag (name : string) (attrs : list (string * string)) (contents : list node)
| NavigableString (text : string).
Local Set Elimination Schemes.

(** A node object is identified by the child indices leading to it. *)
Definition path : Type := list nat.

Definition contents_of (n : node) : list node :=
  match n with Tag _ _ cs => cs | NavigableString _ => [] end.

(** [attrs.get(key)] *)
Fixpoint lookup_attr (key : string) (attrs : list (string * string))
  : option string :=
  match attrs with
  | [] => None
  | (k, v) :: rest => if String.eqb k key then Some v else lookup_attr key rest
  end.

Definition attr (key : string) (n : node) : option string :=
  match n with
  | Tag _ attrs _ => lookup_attr key attrs
  | NavigableString _ => None
  end.

(** [tag.get(key, default)] *)
Definition get (key dflt : string) (n : node) : string :=
  match attr key n with Some v => v | None => dflt end.

Definition named (nm : string) (n : node) : bool :=
  match n with
  | Tag name _ _ => String.eqb name nm
  | NavigableString _ => false
  end.

Section Traversal.
Variable walk : node -> list (path * node).
Fixpoint walk_children (i : nat) (l : list node) : list (path * node) :=
  match l with
  | [] => []
  | c :: l' =>
      map (fun '(q, m) => (i :: q, m)) (walk c) ++ walk_children (S i) l'
  end.
End Traversal.

(** The node and everything below it, in document order. *)
Fixpoint walk (n : node) : list (path * node) :=
  ([], n) :: match n with
             | Tag _ _ cs => walk_children walk 0 cs
             | NavigableString _ => []
             end.

(** [tag.descendants] *)
Definition descendants (n : node) : list (path * node) :=
  walk_children walk 0 (contents_of n).

(** [tag.find_all(...)] and [tag.find(...)], the search criteria given
    as a test on nodes. *)
Definition find_all (crit : node -> bool) (n : node) : list (path * node) :=
  List.filter (fun e => crit (snd e)) (descendants n).

Definition find (crit : node -> bool) (n : node) : option (path * node) :=
  head (find_all crit n).

(** The node at a path. *)
Fixpoint get_at (q : path) (n : node) : option node :=
  match q with
  | [] => Some n
  | i :: q' => contents_of n !! i ≫= get_at q'
  end.

(** [tag.insert(position, new_child)]: past the end it appends. *)
Definition insert (position : nat) (new_child : node) (n : node) : node :=
  match n with
  | Tag nm ats cs => Tag nm ats (take position cs ++ new_child :: drop position cs)
  | NavigableString _ => n
  end.

(** A mutation of the node object at path [q], seen from the root. *)
Fixpoint alter_at (f : node -> node) (q : path) (n : node) : node :=
  match q with
  | [] => f n
  | i :: q' =>
      match n with
      | Tag nm ats cs => Tag nm ats (alter (alter_at f q') i cs)
      | NavigableString _ => n
      end
  end.

End Soup.

(** ** Effects: a state and exception monad over the file system *)
Module Eff.
Export Exc.

(** What a path name is bound to. *)
Inductive entry : Type :=
| Directory
| Regular (content : list Byte.byte)
| Link (target : string).

(** What the program can touch: the file system, and standard output. *)
Record world : Type := World {
  names : gmap string entry;
  console : list string
}.

(** Following links from a name, [hops] links at most: the name reached,
    which is bound to no link. *)
Fixpoint resolve (hops : nat) (fs : gmap string entry) (p : string)
  : option string :=
  match fs !! p with
  | Some (Link q) =>
      match hops with
      | O => None
      | S n => resolve n fs q
      end
  | _ => Some p
  end.

(** The system follows 40 links and then gives up. *)
Definition max_links : nat := 40.

Definition locate (w : world) (p : string) : option string :=
  resolve max_links (names w) p.

(** What a path leads to: a directory or a regular file. *)
Definition entry_at (w : world) (p : string) : option entry :=
  locate w p ≫= fun f => names w !! f.

(** The bytes of the regular file a path leads to. *)
Definition file_at (w : world) (p : string) : option (list Byte.byte) :=
  match entry_at w p with
  | Some (Regular b) => Some b
  | _ => None
  end.

(** [os.path.isdir(p)] *)
Definition isdir (w : world) (p : string) : bool :=
  match entry_at w p with
  | Some Directory => true
  | _ => false
  end.

(** [os.path.samefile(a, b)], [False] when one of them is not there. *)
Definition samefile (w : world) (a b : string) : bool :=
  match locate w a, locate w b with
  | Some fa, Some fb =>
      bool_decide (fa = fb) && bool_decide (is_Some (names w !! fa))
  | _, _ => false
  end.

(** The file named [f] now holds [b]. *)
Definition store (f : string) (b : list Byte.byte) (w : world) : world :=
  World (<[f := Regular b]> (names w)) (console w).

(** A raised exception keeps the effects that came before it. *)
Definition M (A : Type) : Type := world -> outcome A * world.

Definition ret {A} (a : A) : M A := fun w => (Returned a, w).
Definition raise {A} (e : string) : M A := fun w => (Raised e, w).
Definition bind {A B} (c : M A) (k : A -> M B) : M B :=
  fun w => match c w with
           | (Returned a, w') => k a w'
           | (Raised e, w') => (Raised e, w')
           end.
Definition lift {A} (o : outcome A) : M A := fun w => (o, w).

(** [try: c  except Exception as e: ...], the handler left to the
    caller: the computation itself no longer raises. *)
Definition attempt {A} (c : M A) : M (outcome A) :=
  fun w => let '(o, w') := c w in (Returned o, w').

Declare Scope eff_scope.
Delimit Scope eff_scope with eff.
Notation "'do' x <- c ; k" := (bind c (fun x => k))
  (at level 10, x name, c at level 100, k at level 200) : eff_scope.
Notation "c ;; k" := (bind c (fun _ => k))
  (at level 100, k at level 200, right associativity) : eff_scope.

(** The libraries under the program: the HTML parser and printer of
    BeautifulSoup, the UTF-8 text layer of [open], [os.path.basename]
    and [os.path.join], and the digit limit of the interpreter. *)
Record platform : Type := Platform {
  BeautifulSoup : string -> outcome Soup.node;
  prettify : Soup.node -> outcome string;
  decode : list Byte.byte -> outcome string;
  encode : string -> outcome (list Byte.byte);
  basename : string -> string;
  path_join : string -> string -> string;
  int_max_str_digits : N
}.

(** The input and output faults of one run. *)
Record faults : Type := Faults {
  (** [open(path, 'r')] or [f.read()] raises *)
  read_fault : option string;
  (** [shutil.copy2] raises; with [Some b] the destination was already
      opened for writing and is left holding [b] *)
  copy_fault : option (string * option (list Byte.byte));
  (** [open(path, 'w')] raises: the file is not touched *)
  open_fault : option string;
  (** [f.write] or the closing flush raises once [k] bytes are out *)
  write_fault : option (string * nat)
}.

Definition no_faults : faults := Faults None None None None.

Local Open Scope eff_scope.

Section IO.
Variable P : platform.
Variable F : faults.

(** [os.path.exists(path)]: [False] for a link that leads nowhere. *)
Definition path_exists (path : string) : M bool :=
  fun w => (Returned (bool_decide (is_Some (entry_at w path))), w).

(** [open(path, 'rb').read()] *)
Definition read_bytes (path : string) : M (list Byte.byte) :=
  fun w =>
    match entry_at w path with
    | Some (Regular b) => (Returned b, w)
    | Some _ => (Raised ("Is a directory: " +:+ path), w)
    | None => (Raised ("No such file or directory: " +:+ path), w)
    end.

(** [with open(path, 'r', encoding='utf-8') as f: f.read()] *)
Definition read_text (path : string) : M string :=
  match read_fault F with
  | Some e => raise e
  | None => do b <- read_bytes path ; lift (decode P b)
  end.

(** Opening for writing, without fault: the file the path leads to is
    made if it is not there and cut to nothing; the handle returned is
    the name of that file. *)
Definition truncate (path : string) : M string :=
  fun w =>
    match locate w path with
    | None => (Raised ("Too many levels of symbolic links: " +:+ path), w)
    | Some f =>
        match names w !! f with
        | Some Directory => (Raised ("Is a directory: " +:+ path), w)
        | _ => (Returned f, store f [] w)
        end
    end.

(** Writing to a handle: the bytes come after those already written. *)
Definition write_bytes (f : string) (b : list Byte.byte) : M unit :=
  fun w =>
    let old := match names w !! f with
               | Some (Regular old) => old
               | _ => []
               end in
    (Returned tt, store f (old ++ b) w).

(** [shutil.copy2(src, dst)]: into [dst] when that is a directory;
    never a file onto itself. *)
Definition copy2 (src dst : string) : M unit :=
  fun w =>
    let dst := if isdir w dst then path_join P dst (basename P src) else dst in
    if samefile w src dst then
      (Raised (src +:+ " and " +:+ dst +:+ " are the same file"), w)
    else
      match copy_fault F with
      | Some (e, None) => (Raised e, w)
      | Some (e, Some b) =>
          (do fdst <- truncate dst ; write_bytes fdst b ;; raise e) w
      | None =>
          (do b <- read_bytes src ;
           do fdst <- truncate dst ;
           write_bytes fdst b) w
      end.

(** [open(path, 'w', encoding='utf-8')] *)
Definition open_w (path : string) : M string :=
  match open_fault F with
  | Some e => raise e
  | None => truncate path
  end.

(** [f.write(text)] followed by the close at the end of [with]. *)
Definition write_text (f text : string) : M unit :=
  match encode P text with
  | Raised e => raise e
  | Returned b =>
      match write_fault F with
      | Some (e, k) => write_bytes f (take k b) ;; raise e
      | None => write_bytes f b
      end
  end.

(** [print(line)] *)
Definition print (line : string) : M unit :=
  fun w => (Returned tt, World (names w) (console w ++ [line])).

End IO.

End Eff.

(** ** [code.py]: the core logic *)
Module Blog.
Import PyStr Soup Eff.
Local Open Scope eff_scope.

(** The double quote, and a value between double quotes. *)
Definition dq : string := String "034"%char "".
Definition quoted (s : string) : string := dq +:+ s +:+ dq.

Fixpoint spaces (n : nat) : string :=
  match n with O => EmptyString | S n' => String " "%char (spaces n') end.

(** The criteria of [soup.find_all('article', id=re.compile(r'^post\d+$'))]:
    a missing attribute matches no regular expression. *)
Definition is_post (n : node) : bool :=
  named "article" n
  && match attr "id" n with
     | Some v => Re.search_post_id v
     | None => false
     end.

(** The loop over [posts], from the posts still to visit: it stops at
    the first [int] that raises. *)
Fixpoint max_loop (lim : N) (max_id : N) (posts : list (path * node))
  : outcome N :=
  match posts with
  | [] => Returned max_id
  | post :: rest =>
      let post_id := get "id" "" (snd post) in
      match Re.match_post_num post_id with
      | Some group1 =>
          match int lim group1 with
          | Returned current_id =>
              max_loop lim
                (if max_id <? current_id then current_id else max_id) rest
          | Raised e => Raised e
          end
      | None => max_loop lim max_id rest
      end
  end.

(** [lim] is the digit limit of the interpreter. *)
Definition find_next_post_id (lim : N) (soup : node) : outcome string :=
  let posts := find_all is_post soup in
  match max_loop lim 0 posts with
  | Returned max_id =>
      match str lim (max_id + 1) with
      | Returned number => Returned ("post" +:+ number)
      | Raised e => Raised e
      end
  | Raised e => Raised e
  end.

(** Step 3: [soup.find('main', id='blogPosts')], then [soup.find('main')]. *)
Definition is_blog_main (n : node) : bool :=
  named "main" n
  && match attr "id" n with
     | Some v => String.eqb v "blogPosts"
     | None => false
     end.

Definition msg_no_main : string :=
  "Error: Could not find <main id='blogPosts'> tag or <main> tag.".
Definition msg_fallback : string :=
  "Warning: Found <main> tag but not specific id='blogPosts'. Inserting into first <main>.".
Definition msg_no_tag : string := "Error: Please provide at least one tag.".
Definition msg_no_article : string :=
  "Error: Failed to create BeautifulSoup object for the new post.".

(** [None] stands for the early [return False, ...] of the step. *)
Definition find_insertion_point (soup : node) : M (option (path * node)) :=
  match find is_blog_main soup with
  | Some main_content => ret (Some main_content)
  | None =>
      match find (named "main") soup with
      | None => ret None
      | Some main_content => print msg_fallback ;; ret (Some main_content)
      end
  end.

(** Step 4: the tags and the file name. *)
Definition clean_tags (tags_str : string) : list string :=
  map strip (List.filter (fun tag => truthy (strip tag)) (split "," tags_str)).

Definition tag_span (tag : string) : string :=
  "<span class=" +:+ quoted "tag" +:+ " data-tag=" +:+ quoted (lower tag)
  +:+ ">" +:+ tag +:+ "</span>".

Definition tags_html (tags_list : list string) : string :=
  strip (concat_all (map (fun tag => tag_span tag +:+ nl +:+ spaces 10) tags_list)).

Definition html_filename (post_filename : string) : string :=
  if negb (endswith (lower post_filename) ".html")
  then post_filename +:+ ".html"
  else post_filename.

(** Step 5: the template, line by line.  Its two characters above code
    point 255, the bullet and the arrow, are written as they are in the
    source file; no string operation of the program looks into the
    template. *)
Definition article_open (data_tags_attr date_str next_id : string) : string :=
  "<article class=" +:+ quoted "post-card" +:+ " data-tags="
  +:+ quoted data_tags_attr +:+ " data-date=" +:+ quoted date_str
  +:+ " id=" +:+ quoted next_id +:+ ">".

Definition meta_block (date_str read_time : string) : string :=
  nl +:+ spaces 8 +:+ "<div class=" +:+ quoted "post-meta" +:+ ">"
  +:+ nl +:+ spaces 10 +:+ "<span>" +:+ date_str +:+ "</span>"
  +:+ nl +:+ spaces 10 +:+ "<span>•</span>"
  +:+ nl +:+ spaces 10 +:+ "<span>" +:+ read_time +:+ "</span>"
  +:+ nl +:+ spaces 8 +:+ "</div>".

Definition heading (post_filename title : string) : string :=
  nl +:+ spaces 8 +:+ "<h2><a href=" +:+ quoted post_filename +:+ ">"
  +:+ title +:+ "</a></h2>".

Definition tags_block (tags : string) : string :=
  nl +:+ spaces 8 +:+ "<div class=" +:+ quoted "post-tags" +:+ ">"
  +:+ nl +:+ spaces 10 +:+ tags
  +:+ nl +:+ spaces 8 +:+ "</div>".

Definition excerpt_block (description : string) : string :=
  nl +:+ spaces 8 +:+ "<p class=" +:+ quoted "post-excerpt" +:+ ">"
  +:+ nl +:+ spaces 10 +:+ description
  +:+ nl +:+ spaces 8 +:+ "</p>".

Definition read_more (post_filename : string) : string :=
  nl +:+ spaces 8 +:+ "<a href=" +:+ quoted post_filename +:+ " class="
  +:+ quoted "read-more" +:+ ">Continue Reading <span class="
  +:+ quoted "arrow" +:+ ">→</span></a>".

Definition article_close : string := nl +:+ spaces 6 +:+ "</article>".

Definition new_post_html_str
  (data_tags_attr date_str next_id read_time post_filename title tags description
     : string) : string :=
  article_open data_tags_attr date_str next_id
  +:+ meta_block date_str read_time
  +:+ heading post_filename title
  +:+ tags_block tags
  +:+ excerpt_block description
  +:+ read_more post_filename
  +:+ article_close.

(** Steps 4 and 5 together; [None] is the early return on an empty list
    of tags. *)
Definition synthesize
  (next_id title tags_str description read_time date_str post_filename : string)
  : option string :=
  let tags_list := clean_tags tags_str in
  match tags_list with
  | [] => None
  | _ =>
      let data_tags_attr := join ", " tags_list in
      let tags := tags_html tags_list in
      let post_filename := html_filename post_filename in
      Some (new_post_html_str data_tags_attr date_str next_id read_time
              post_filename title tags description)
  end.

Section Core.
Variable P : platform.
Variable F : faults.

(** Step 6.  The left results are the early returns of the step; the
    right result is the document after the two calls of [insert] on
    the node object [main_content]. *)
Definition insert_new_post
  (soup : node) (main_content : path) (html : string)
  : (bool * string) + node :=
  match BeautifulSoup P html with
  | Raised e => inl (false, "Error inserting new post HTML: " +:+ e)
  | Returned new_soup =>
      match find (named "article") new_soup with
      | Some new_post_soup =>
          let soup1 :=
            alter_at (insert 0 (snd new_post_soup)) main_content soup in
          let soup2 :=
            alter_at (insert 0 (NavigableString (nl +:+ spaces 6)))
              main_content soup1 in
          inr soup2
      | None => inl (false, msg_no_article)
      end
  end.

(** Step 7. *)
Definition write_back (soup : node) (html_file_path title : string)
  : M (bool * string) :=
  let backup_path := html_file_path +:+ ".bak" in
  do r <- attempt
            (copy2 P F html_file_path backup_path ;;
             do f <- open_w F html_file_path ;
             do text <- lift (prettify P soup) ;
             write_text P F f text) ;
  match r with
  | Returned _ =>
      ret (true,
           "Successfully added post '" +:+ title +:+ "' to "
           +:+ basename P html_file_path +:+ "." +:+ nl
           +:+ "Backup saved as " +:+ basename P backup_path)
  | Raised e =>
      ret (false, "Error writing file '" +:+ html_file_path +:+ "': " +:+ e)
  end.

Definition add_blog_post
  (html_file_path title tags_str description read_time date_str
     post_filename : string) : M (bool * string) :=
  do there <- path_exists html_file_path ;
  if negb (truthy html_file_path) || negb there then
    ret (false,
         "Error: HTML file not found or path not specified: "
         +:+ html_file_path)
  else
    do r <- attempt (read_text P F html_file_path) ;
    match r with
    | Raised e =>
        ret (false,
             "Error reading file '" +:+ html_file_path +:+ "': " +:+ e)
    | Returned content =>
        match BeautifulSoup P content with
        | Raised e => ret (false, "Error parsing HTML: " +:+ e)
        | Returned soup =>
            do point <- find_insertion_point soup ;
            match point with
            | None => ret (false, msg_no_main)
            | Some main_content =>
                do next_id <- lift (find_next_post_id (int_max_str_digits P)
                                      soup) ;
                match synthesize next_id title tags_str description
                        read_time date_str post_filename with
                | None => ret (false, msg_no_tag)
                | Some html =>
                    match insert_new_post soup (fst main_content) html with
                    | inl early => ret early
                    | inr soup' => write_back soup' html_file_path title
                    end
                end
            end
        end
    end.

(** The form of [BlogPostAdderApp] and its submit button.  An exception
    that leaves [add_blog_post] leaves [submit_post]: no dialog is
    shown. *)
Record form : Type := Form {
  file_path_var : string;
  title_entry : string;
  tags_entry : string;
  desc_text : string;
  read_time_entry : string;
  date_var : string;
  filename_entry : string
}.

Inductive dialog : Type :=
| showwarning (title message : string)
| showinfo (title message : string)
| showerror (title message : string).

(** [self.desc_text.get("1.0", tk.END)]: the text of the widget and
    the newline Tk keeps after it. *)
Definition desc_get (f : form) : string := desc_text f +:+ nl.

(** [None] is [True]; [Some d] is [False] after showing [d]. *)
Definition validate_inputs (f : form) : option dialog :=
  let missing := showwarning "Missing Input" in
  if negb (truthy (file_path_var f)) then
    Some (missing "Please select the blog HTML file.")
  else if negb (truthy (title_entry f)) then
    Some (missing "Please enter a Post Title.")
  else if negb (truthy (tags_entry f)) then
    Some (missing "Please enter at least one Tag.")
  else if negb (truthy (strip (desc_get f))) then
    Some (missing "Please enter a Description/Excerpt.")
  else if negb (truthy (read_time_entry f)) then
    Some (missing "Please enter the Reading Time.")
  else if negb (truthy (date_var f)) then
    Some (missing "Please enter the Date.")
  else if negb (truthy (filename_entry f)) then
    Some (missing "Please enter the Post HTML Filename.")
  else None.

(** The description handed to the core operation. *)
Definition submitted_description (f : form) : string := strip (desc_get f).

Definition submit_post (f : form) : M dialog :=
  match validate_inputs f with
  | Some warning => ret warning
  | None =>
      do r <- add_blog_post (file_path_var f) (title_entry f) (tags_entry f)
                (submitted_description f) (read_time_entry f) (date_var f)
                (filename_entry f) ;
      let '(success, message) := r in
      if success : bool then ret (showinfo "Success" message)
      else ret (showerror "Error" message)
  end.

End Core.

End Blog.

(** ** [git_push_gui.py]: the worker *)
Module Git.
Import PyStr.

(** What [subprocess.Popen(...)] and [proc.communicate()] come to: the
    process ran to its exit, or one of the two calls raised. *)
Inductive completion : Type :=
| Exited (stdout stderr : string) (returncode : Z)
| Faulted (e : string).

(** The three signals of [GitWorker]. *)
Inductive signal : Type :=
| output (text : string)
| finished
| error (text : string).

(** What an observer of the worker sees, in order: a process is
    launched, a launched process completes, a signal is emitted. *)
Inductive event : Type :=
| Launch (cmd : list string) (cwd : string)
| Complete (c : completion)
| Emit (s : signal).

Definition cmds (commit_msg : string) : list (list string) :=
  [ ["git"; "add"; "."];
    ["git"; "commit"; "-m"; commit_msg];
    ["git"; "push"; "-u"; "origin"; "main"] ].

Definition emit_if_any (text : string) : list event :=
  if truthy text then [Emit (output text)] else [].

Definition msg_failed (cmd : list string) (returncode : Z) : string :=
  "Command " +:+ join " " cmd +:+ " failed with exit code " +:+ str_Z returncode.

Section Worker.
(** The machine the commands run on, and what running one does. *)
Variable machine : Type.
Variable popen_communicate :
  list string -> string -> machine -> completion * machine.

(** The [for] loop of [run], from the command list still to do. *)
Fixpoint run_from (repo_path : string) (todo : list (list string))
  (m : machine) : list event * machine :=
  match todo with
  | [] => ([Emit finished], m)
  | cmd :: rest =>
      let start :=
        [Emit (output ("Running: " +:+ join " " cmd +:+ nl));
         Launch cmd repo_path] in
      match popen_communicate cmd repo_path m with
      | (Faulted e, m') =>
          (start ++ [Complete (Faulted e); Emit (error e)], m')
      | (Exited stdout stderr returncode, m') =>
          let reported :=
            Complete (Exited stdout stderr returncode)
            :: emit_if_any stdout ++ emit_if_any stderr in
          if (returncode =? 0)%Z then
            let '(later, m'') := run_from repo_path rest m' in
            (start ++ reported ++ later, m'')
          else
            (start ++ reported ++ [Emit (error (msg_failed cmd returncode))],
             m')
      end
  end.

Definition run (repo_path commit_msg : string) (m : machine)
  : list event * machine :=
  run_from repo_path (cmds commit_msg) m.

End Worker.

End Git.

(** ** The properties, in the words of the specification *)
Module Spec.
Import PyStr Soup.

Fixpoint all_space (s : string) : bool :=
  match s with
  | EmptyString => true
  | String c s' => isspace c && all_space s'
  end.

(** An identifier that is exactly [post] followed by one or more
    digits, and the number it carries. *)
Definition post_number (id : string) : option N :=
  match strip_prefix "post" id with
  | Some ds =>
      if truthy ds && all_digits ds then Some (int_of_digits ds) else None
  | None => None
  end.

(** The number of an entry: an [article] element with such an
    identifier. *)
Definition entry_number (n : node) : option N :=
  if named "article" n then attr "id" n ≫= post_number else None.

Definition max_of (l : list N) : N := foldr N.max 0 l.

(** The identifier the allocator is to return. *)
Definition next_post_id (soup : node) : string :=
  "post"
  +:+ numeral (max_of (omap (fun e => entry_number (snd e)) (descendants soup)) + 1).

(** A suffix [.html], in any mix of upper and lower case. *)
Definition either (lo up c : ascii) : Prop := c = lo \/ c = up.
Definition html_suffix (s : string) : Prop :=
  exists p h t m l,
    s = p +:+ String "."%char (String h (String t (String m (String l EmptyString))))
    /\ either "h" "H" h /\ either "t" "T" t /\ either "m" "M" m /\ either "l" "L" l.

(** What a node is by itself, its children left out. *)
Definition label (n : node) : (string * list (string * string)) + string :=
  match n with
  | Tag nm ats _ => inl (nm, ats)
  | NavigableString t => inr t
  end.

(** Document order: a node comes before the nodes below it, and all of
    them before its later siblings. *)
Fixpoint precedes (q p : path) : bool :=
  match q, p with
  | [], [] => false
  | [], _ :: _ => true
  | _ :: _, [] => false
  | i :: q', j :: p' => (i <? j)%nat || ((i =? j)%nat && precedes q' p')
  end.

(** [n], at path [p], is the first node below the root, in document
    order, that meets the criteria. *)
Definition first_match (crit : node -> bool) (soup : node) (p : path) (n : node)
  : Prop :=
  p <> [] /\ get_at p soup = Some n /\ crit n = true
  /\ forall q m, q <> [] -> get_at q soup = Some m -> crit m = true ->
                 precedes q p = false.


(** [soup'] is [soup] with a string node and then [new_post] put in
    front of the children of the tag at [p], and nothing else changed. *)
Record spliced (p : path) (text : string) (new_post : node) (soup soup' : node)
  : Prop := Spliced {
  spliced_container :
    exists nm ats cs,
      get_at p soup = Some (Tag nm ats cs)
      /\ get_at p soup' = Some (Tag nm ats (NavigableString text :: new_post :: cs));
  spliced_elsewhere :
    forall q, ~ p `prefix_of` q -> ~ q `prefix_of` p ->
              get_at q soup' = get_at q soup;
  spliced_above :
    forall q, q `prefix_of` p -> q <> p ->
              label <$> get_at q soup' = label <$> get_at q soup
}.

(** The identifiers of the entries, in document order. *)
Definition id_of_entry (n : node) : option string :=
  if Blog.is_post n then Some (get "id" "" n) else None.
Definition entry_ids (nodes : list (path * node)) : list string :=
  omap (fun e => id_of_entry (snd e)) nodes.

(** The container of step 3, and whether the warning is printed: the
    first [main] with the identifier [blogPosts], or else the first
    [main]. *)
Definition container (soup : node) : option (path * node * bool) :=
  match find Blog.is_blog_main soup with
  | Some main_content => Some (main_content, false)
  | None =>
      match find (named "main") soup with
      | Some main_content => Some (main_content, true)
      | None => None
      end
  end.

Definition warned (yes : bool) (w : Eff.world) : Eff.world :=
  if yes then Eff.World (Eff.names w) (Eff.console w ++ [Blog.msg_fallback])
  else w.

Definition msg_not_found (path : string) : string :=
  "Error: HTML file not found or path not specified: " +:+ path.
Definition msg_read (path e : string) : string :=
  "Error reading file '" +:+ path +:+ "': " +:+ e.
Definition msg_write (path e : string) : string :=
  "Error writing file '" +:+ path +:+ "': " +:+ e.

(** Three sentences of the specification, as they are worded: an empty
    list of tags always gives the validation error; a failing write
    leaves the file as it was; after a success the copy of the file is
    at [path.bak]. *)
Definition validation_comes_first : Prop :=
  forall P F path title tags desc rt date fn w,
    Blog.clean_tags tags = [] ->
    exists w',
      Blog.add_blog_post P F path title tags desc rt date fn w
      = (Returned (false, Blog.msg_no_tag), w')
      /\ Eff.names w' = Eff.names w.

Definition atomic_overwrite : Prop :=
  forall P F path title tags desc rt date fn w r w',
    Blog.add_blog_post P F path title tags desc rt date fn w = (r, w') ->
    Eff.write_fault F <> None ->
    Eff.file_at w' path = Eff.file_at w path.

Definition backup_at_sibling : Prop :=
  forall P F path title tags desc rt date fn w msg w',
    Blog.add_blog_post P F path title tags desc rt date fn w
    = (Returned (true, msg), w') ->
    exists raw,
      Eff.file_at w path = Some raw
      /\ Eff.file_at w' (path +:+ ".bak") = Some raw.

(** Where the copy of the file goes: to [path.bak], or, when that is a
    directory, into it under the base name of the file. *)
Definition backup_name (P : Eff.platform) (w : Eff.world) (path : string)
  : string :=
  if Eff.isdir w (path +:+ ".bak")
  then Eff.path_join P (path +:+ ".bak") (Eff.basename P path)
  else path +:+ ".bak".


(** The allocation of the identifier returns on the page the file
    holds: no identifier of a post is beyond the digit limit. *)
Definition allocation_returns
  (P : Eff.platform) (F : Eff.faults) (path : string) (w : Eff.world) : Prop :=
  forall content soup,
    fst (Eff.read_text P F path w) = Returned content ->
    Eff.BeautifulSoup P content = Returned soup ->
    exists next_id,
      Blog.find_next_post_id (Eff.int_max_str_digits P) soup
      = Returned next_id.

(** The document once the new entry is in: the two calls of [insert] of
    step 6 at the container [p], the second with the string [text]. *)
Definition with_new_post' (text : string) (p : path) (new_post : node)
  (soup : node) : node :=
  alter_at (insert 0 (NavigableString text)) p
    (alter_at (insert 0 new_post) p soup).

Definition with_new_post : path -> node -> node -> node :=
  with_new_post' (nl +:+ Blog.spaces 6).

(** Reading markup: the characters up to the next [c].  The value of a
    double-quoted attribute ends at the next double quote, and text ends
    at the next [<]. *)
Fixpoint up_to (c : ascii) (s : string) : string :=
  match s with
  | EmptyString => EmptyString
  | String d s' => if Ascii.eqb d c then EmptyString else String d (up_to c s')
  end.

(** Reading a trace of the git worker. *)
Definition launches (tr : list Git.event) : list (list string * string) :=
  omap (fun e => match e with Git.Launch c d => Some (c, d) | _ => None end) tr.
Definition completions (tr : list Git.event) : list Git.completion :=
  omap (fun e => match e with Git.Complete c => Some c | _ => None end) tr.
Definition signals (tr : list Git.event) : list Git.signal :=
  omap (fun e => match e with Git.Emit s => Some s | _ => None end) tr.

(** A process that ran to its exit with status zero. *)
Definition succeeded (c : Git.completion) : bool :=
  match c with
  | Git.Exited _ _ rc => (rc =? 0)%Z
  | Git.Faulted _ => false
  end.

(** What is to be reported of a completion: those of the two output
    streams that are not empty. *)
Definition reports (c : Git.completion) : list Git.event :=
  match c with
  | Git.Exited stdout stderr _ =>
      Git.emit_if_any stdout ++ Git.emit_if_any stderr
  | Git.Faulted _ => []
  end.

(** The text of the error signal for a command that failed: the exit
    code, or the message of the exception. *)
Definition failure_text (cmd : list string) (c : Git.completion) : string :=
  match c with
  | Git.Exited _ _ rc =>
      "Command " +:+ join " " cmd +:+ " failed with exit code " +:+ str_Z rc
  | Git.Faulted e => e
  end.

Definition announce (cmd : list string) : Git.event :=
  Git.Emit (Git.output ("Running: " +:+ join " " cmd +:+ nl)).


Definition is_emit (e : Git.event) : bool :=
  match e with Git.Emit _ => true | _ => false end.

Definition terminal (s : Git.signal) : bool :=
  match s with Git.output _ => false | _ => true end.

(** Notions of the proofs. *)

(** The number the loop of the allocator reads off a node. *)
Definition read_number (n : node) : option N :=
  if Blog.is_post n
  then int_of_digits <$> Re.match_post_num (get "id" "" n)
  else None.

(** Two entries of a traversal in document order. *)
Definition before (x y : path * node) : Prop :=
  precedes (fst x) (fst y) = true.

(** The labels of a traversal, and of the traversals of a list of nodes. *)
Definition labels (l : list (path * node))
  : list ((string * list (string * string)) + string) :=
  map (fun e => label (snd e)) l.
Definition labels_below (cs : list node)
  : list ((string * list (string * string)) + string) :=
  concat (map (fun c => labels (walk c)) cs).

(** The entries are read off the labels. *)
Definition id_of_label (l : (string * list (string * string)) + string)
  : option string :=
  match l with
  | inl (nm, ats) => id_of_entry (Tag nm ats [])
  | inr _ => None
  end.

End Spec.

(** ** A small platform and sample inputs, to run the model on *)
Module Demo.
Import PyStr Soup Eff.

Definition root (contents : list node) : node := Tag "[document]" [] contents.

(** A blog home page with two posts, and pages that lack something. *)
Definition post (id : string) : node :=
  Tag "article" [("class", "post-card"); ("id", id)] [NavigableString id].

Definition home : node :=
  root [Tag "html" []
          [Tag "body" []
             [Tag "h1" [] [NavigableString "Blog"];
              Tag "main" [("id", "blogPosts")] [post "post2"; post "post1"];
              Tag "footer" [] []]]].

Definition plain_main : node :=
  root [Tag "main" [] [post "post7"]; Tag "main" [] []].

Definition no_main : node := root [Tag "div" [] [post "post1"]].

(** A post whose identifier ends with a line feed. *)
Definition newline_id : node :=
  root [Tag "article" [("id", "post12" +:+ nl)] []].

(** A page with a post whose number has 4301 digits. *)
Fixpoint nines (n : nat) : string :=
  match n with O => EmptyString | S n' => String "9"%char (nines n') end.

Definition long_id : node :=
  root [Tag "main" [("id", "blogPosts")]
          [Tag "article" [("id", "post" +:+ nines 4301)] []]].

(** The parser of the demonstration knows five pages by their first
    line, and reads any markup that opens an article as one article
    holding the markup as text. *)
Definition toy_parse (markup : string) : outcome node :=
  if String.prefix "<article" markup then
    Returned (root [Tag "article" [("class", "post-card")]
                      [NavigableString markup]])
  else if String.prefix "HOME" markup then Returned home
  else if String.prefix "PLAIN" markup then Returned plain_main
  else if String.prefix "NOMAIN" markup then Returned no_main
  else if String.prefix "NEWLINE" markup then Returned newline_id
  else if String.prefix "LONG" markup then Returned long_id
  else Raised "cannot parse".

Fixpoint render_attrs (attrs : list (string * string)) : string :=
  match attrs with
  | [] => EmptyString
  | (k, v) :: rest =>
      " " +:+ k +:+ "='" +:+ v +:+ "'" +:+ render_attrs rest
  end.

Fixpoint render (n : node) : string :=
  match n with
  | NavigableString text => text
  | Tag name attrs cs =>
      "<" +:+ name +:+ render_attrs attrs +:+ ">"
      +:+ concat_all (map render cs) +:+ "</" +:+ name +:+ ">"
  end.

Definition toy : platform :=
  {| BeautifulSoup := toy_parse;
     prettify := fun soup => Returned (render soup);
     decode := fun b => Returned (string_of_list_byte b);
     encode := fun s => Returned (list_byte_of_string s);
     basename := fun p => p;
     path_join := fun a b => a +:+ "/" +:+ b;
     int_max_str_digits := default_max_str_digits |}.

Definition bytes_of (s : string) : list Byte.byte := list_byte_of_string s.

Definition disk : world :=
  {| names := {[ "blog.html" := Regular (bytes_of "HOME");
                 "plain.html" := Regular (bytes_of "PLAIN");
                 "nomain.html" := Regular (bytes_of "NOMAIN");
                 "long.html" := Regular (bytes_of "LONG");
                 "blog.html.bak" := Regular (bytes_of "an older backup") ]};
     console := [] |}.

(** The same with a directory where the backup is to go, and with a
    link to the page there. *)
Definition disk_with (backup : entry) : world :=
  {| names := <["blog.html.bak" := backup]> (names disk); console := [] |}.

Definition disk_full : faults :=
  {| read_fault := None; copy_fault := None; open_fault := None;
     write_fault := Some ("No space left on device", 0%nat) |}.

Definition copy_denied : faults :=
  {| read_fault := None; copy_fault := Some ("Permission denied", None);
     open_fault := None; write_fault := None |}.

Definition hello_on (w : world) (F : faults) (html_file_path tags_str : string)
  : outcome (bool * string) * world :=
  Blog.add_blog_post toy F html_file_path "Hello" tags_str "World"
    "2 min read" "Jan 01, 2025" "hello" w.

Definition hello := hello_on disk.

(** The message of a successful [hello] on the blog home page. *)
Definition ok_message : string :=
  "Successfully added post 'Hello' to blog.html." +:+ nl
  +:+ "Backup saved as blog.html.bak".

(** A machine for the git worker: the completions still to come. *)
Definition scripted (cmd : list string) (cwd : string)
  (script : list Git.completion) : Git.completion * list Git.completion :=
  match script with
  | c :: rest => (c, rest)
  | [] => (Git.Faulted "no such process", [])
  end.

End Demo.

From Stdlib Require Import DecimalN.
From Stdlib Require DecimalFacts.

(** ** Further notions: tags, decimal numerals, labels *)
Module More.
Import PyStr Soup Spec.

(** [c in s] for a character [c]. *)
Fixpoint has_char (c : ascii) (s : string) : bool :=
  match s with
  | EmptyString => false
  | String d s' => Ascii.eqb d c || has_char c s'
  end.

(** A string of commas and white space only. *)
Fixpoint only_separators (s : string) : bool :=
  match s with
  | EmptyString => true
  | String c s' => (Ascii.eqb c "," || isspace c) && only_separators s'
  end.

(** A tag as the cleaning leaves it: not empty, trimmed, without comma. *)
Definition clean_tag (t : string) : Prop :=
  truthy t = true /\ strip t = t /\ has_char "," t = false.

(** The value of a decimal numeral read after the digits that gave [acc]. *)
Fixpoint uint_val (acc : N) (d : Decimal.uint) : N :=
  match d with
  | Decimal.Nil => acc
  | Decimal.D0 l => uint_val (10 * acc) l
  | Decimal.D1 l => uint_val (10 * acc + 1) l
  | Decimal.D2 l => uint_val (10 * acc + 2) l
  | Decimal.D3 l => uint_val (10 * acc + 3) l
  | Decimal.D4 l => uint_val (10 * acc + 4) l
  | Decimal.D5 l => uint_val (10 * acc + 5) l
  | Decimal.D6 l => uint_val (10 * acc + 6) l
  | Decimal.D7 l => uint_val (10 * acc + 7) l
  | Decimal.D8 l => uint_val (10 * acc + 8) l
  | Decimal.D9 l => uint_val (10 * acc + 9) l
  end.

(** The number of digits the loop of the allocator hands to [int] at a
    node, and whether [int] reads them under the limit. *)
Definition digits_read (n : node) : option nat :=
  if Blog.is_post n
  then String.length <$> Re.match_post_num (get "id" "" n)
  else None.

Definition readable (lim : N) (n : node) : bool :=
  match digits_read n with
  | Some d => negb (exceeds lim d)
  | None => true
  end.

(** The same from the label of the node. *)
Definition readable_label (lim : N)
  (l : (string * list (string * string)) + string) : bool :=
  match l with
  | inl (nm, ats) => readable lim (Tag nm ats [])
  | inr _ => true
  end.

(** No identifier of the document is longer than the digit limit, if
    there is one. *)
Definition ids_within (lim : N) (soup : node) : Prop :=
  lim = 0
  \/ forall e v, e ∈ descendants soup -> attr "id" (snd e) = Some v ->
                 N.of_nat (String.length v) <= lim.

(** The number the allocator reads off a node, from its label. *)
Definition number_of_label (l : (string * list (string * string)) + string)
  : option N :=
  match l with
  | inl (nm, ats) => read_number (Tag nm ats [])
  | inr _ => None
  end.

End More.

(** ** [git_push_gui.py]: the window of the push button

    The worker runs in a thread of its own and its signals reach the
    window in the order of emission.  The model follows one click and the
    delivery of the signals of the run it starts, with no other event
    handled in between (the button is disabled for that time). *)
Module Gui.
Import PyStr Git Spec.

(** The message boxes of [QMessageBox]. *)
Inductive box : Type :=
| warning (title text : string)
| critical (title text : string)
| information (title text : string).

(** What the handlers read and write of [MainWindow]: the repository,
    the line edit, the button, the paragraphs of the log, and the boxes
    shown so far. *)
Record window : Type := Window {
  repo_path : string;
  msg_input : string;
  push_button_enabled : bool;
  log_output : list string;
  boxes : list box
}.

Definition show (b : box) (win : window) : window :=
  Window (repo_path win) (msg_input win) (push_button_enabled win)
    (log_output win) (boxes win ++ [b]).

Definition append_log (text : string) (win : window) : window :=
  Window (repo_path win) (msg_input win) (push_button_enabled win)
    (log_output win ++ [text]) (boxes win).

Definition on_error (err : string) (win : window) : window :=
  let win := append_log ("Error: " +:+ err) win in
  let win := show (critical "Error" err) win in
  Window (repo_path win) (msg_input win) true (log_output win) (boxes win).

Definition on_finished (win : window) : window :=
  let win := append_log "Operation completed successfully." win in
  let win := show (information "Success" "Add, commit, and push completed.") win in
  Window (repo_path win) EmptyString true (log_output win) (boxes win).

(** The connections made in [on_push_clicked]. *)
Definition deliver (win : window) (s : signal) : window :=
  match s with
  | output text => append_log text win
  | error err => on_error err win
  | finished => on_finished win
  end.

Section Click.
Variable machine : Type.
Variable popen_communicate :
  list string -> string -> machine -> completion * machine.

(** The click, the run it starts and the delivery of its signals; the
    trace of the run is returned beside the window. *)
Definition on_push_clicked (win : window) (m : machine)
  : window * list event * machine :=
  if negb (truthy (repo_path win)) then
    (show (warning "No Repository" "Please select a repository first.") win,
     [], m)
  else
    let commit_msg := strip (msg_input win) in
    if negb (truthy commit_msg) then
      (show (warning "Empty Message" "Commit message cannot be empty.") win,
       [], m)
    else
      let started :=
        Window (repo_path win) (msg_input win) false [] (boxes win) in
      let '(tr, m') :=
        run machine popen_communicate (repo_path win) commit_msg m in
      (fold_left deliver (signals tr) started, tr, m').

End Click.

(** The texts of the [output] signals of a trace. *)
Definition outputs (tr : list event) : list string :=
  omap (fun e => match e with Emit (output text) => Some text | _ => None end) tr.

(** The last paragraph of the log and the box of a run, by its last
    signal. *)
Definition last_line (s : signal) : string :=
  match s with
  | error err => "Error: " +:+ err
  | _ => "Operation completed successfully."
  end.
Definition last_box (s : signal) : box :=
  match s with
  | error err => critical "Error" err
  | _ => information "Success" "Add, commit, and push completed."
  end.

End Gui.

(** ** A sample window *)
Module Samples.
Definition sample_window : Gui.window :=
  Gui.Window "/repo" " msg " true ["an older line"] [].
End Samples.

(* ===================================================================== *)
(** * Part II: theorems                                                   *)
(* ===================================================================== *)

(** ** Facts about the string operations *)
Module StrFacts.
Import PyStr Spec.
#[local] Arguments String.append !_ _ / : simpl nomatch.

Lemma app_nil_r s : s +:+ "" = s.
Proof. induction s as [|c s IH]; simpl; [done | by rewrite IH]. Qed.

Lemma app_assoc s t u : (s +:+ t) +:+ u = s +:+ (t +:+ u).
Proof. induction s as [|c s IH]; simpl; [done | by rewrite IH]. Qed.

Lemma app_cons c s t : String c s +:+ t = String c (s +:+ t).
Proof. done. Qed.

Lemma length_app s t :
  String.length (s +:+ t) = (String.length s + String.length t)%nat.
Proof. induction s as [|c s IH]; simpl; [done | by rewrite IH]. Qed.

Lemma all_space_app s t :
  all_space (s +:+ t) = all_space s && all_space t.
Proof.
  induction s as [|c s IH]; simpl; [done |].
  by rewrite IH, andb_assoc.
Qed.

Lemma all_space_spaces n : all_space (Blog.spaces n) = true.
Proof. induction n; simpl; auto. Qed.

(** *** [lstrip] *)
Lemma lstrip_blank s : all_space s = true -> lstrip s = "".
Proof.
  induction s as [|c s IH]; simpl; [done |].
  intros [Hc Hs]%andb_prop. rewrite Hc. auto.
Qed.

Lemma lstrip_app s t :
  lstrip (s +:+ t) = if truthy (lstrip s) then lstrip s +:+ t else lstrip t.
Proof.
  induction s as [|c s IH]; simpl; [by destruct (lstrip t) |].
  destruct (isspace c); [done |]. done.
Qed.

Lemma lstrip_fixed c s : isspace c = false -> lstrip (String c s) = String c s.
Proof. simpl. by intros ->. Qed.

(** *** [rstrip] *)
Lemma rstrip_blank s : all_space s = true -> rstrip s = "".
Proof.
  induction s as [|c s IH]; simpl; [done |].
  intros [Hc Hs]%andb_prop. by rewrite IH, Hc.
Qed.

Lemma rstrip_app s t :
  rstrip (s +:+ t) = if truthy (rstrip t) then s +:+ rstrip t else rstrip s.
Proof.
  induction s as [|c s IH]; simpl.
  - by destruct (rstrip t).
  - rewrite IH. destruct (rstrip t) as [|d r]; simpl; [done |].
    by destruct (s +:+ String d r) eqn:E; [destruct s; discriminate |].
Qed.

Lemma rstrip_last s c : isspace c = false -> rstrip (s +:+ String c "") = s +:+ String c "".
Proof. intros Hc. rewrite rstrip_app. simpl. by rewrite Hc. Qed.

Lemma rstrip_idem s : rstrip (rstrip s) = rstrip s.
Proof.
  induction s as [|c s IH]; simpl; [done |].
  destruct (rstrip s) as [|d r] eqn:E.
  - destruct (isspace c) eqn:Hc; simpl; [done | by rewrite Hc].
  - simpl in *. by rewrite IH.
Qed.

Lemma rstrip_head c s :
  isspace c = false -> exists r, rstrip (String c s) = String c r.
Proof.
  intros Hc. simpl. destruct (rstrip s); rewrite ?Hc; eauto.
Qed.

(** *** [strip] *)
Lemma strip_pad w1 s w2 :
  all_space w1 = true -> all_space w2 = true ->
  strip (w1 +:+ s +:+ w2) = strip s.
Proof.
  intros H1 H2. unfold strip.
  rewrite lstrip_app, (lstrip_blank w1 H1). simpl.
  rewrite lstrip_app. destruct (lstrip s) as [|c r] eqn:E; simpl.
  - by rewrite (lstrip_blank w2 H2).
  - change (String c (r +:+ w2)) with (String c r +:+ w2).
    rewrite rstrip_app, (rstrip_blank w2 H2). done.
Qed.

Lemma lstrip_head s : match lstrip s with
                      | EmptyString => True
                      | String c _ => isspace c = false
                      end.
Proof.
  induction s as [|c s IH]; simpl; [done |].
  destruct (isspace c) eqn:Hc; [done | done].
Qed.

Lemma strip_idem s : strip (strip s) = strip s.
Proof.
  unfold strip. pose proof (lstrip_head s) as H.
  destruct (lstrip s) as [|c r]; [done |].
  destruct (rstrip_head c r H) as [r' Hr]. rewrite Hr.
  rewrite (lstrip_fixed c r' H), <- Hr. apply rstrip_idem.
Qed.

Lemma lstrip_split s :
  exists w, all_space w = true /\ s = w +:+ lstrip s.
Proof.
  induction s as [|c s (w & Hw & IH)]; simpl; [by exists "" |].
  destruct (isspace c) eqn:Hc.
  - exists (String c w). simpl. rewrite Hc, Hw. split; [done | by rewrite <- IH].
  - by exists "".
Qed.

Lemma rstrip_split s :
  exists w, all_space w = true /\ s = rstrip s +:+ w.
Proof.
  induction s as [|c s (w & Hw & IH)]; simpl; [by exists "" |].
  destruct (rstrip s) as [|d r] eqn:E.
  - destruct (isspace c) eqn:Hc.
    + exists (String c w). simpl in *. rewrite Hc, Hw. split; [done | by rewrite <- IH].
    + exists w. split; [done |]. simpl in *. by rewrite <- IH.
  - exists w. split; [done |]. simpl in *. by rewrite <- IH.
Qed.

(** A string is its stripped form between two runs of white space. *)
Lemma strip_split s :
  exists w1 w2, all_space w1 = true /\ all_space w2 = true
                /\ s = w1 +:+ strip s +:+ w2.
Proof.
  destruct (lstrip_split s) as (w1 & H1 & E1).
  destruct (rstrip_split (lstrip s)) as (w2 & H2 & E2).
  exists w1, w2. unfold strip. by rewrite <- E2, <- E1.
Qed.

(** *** [split] and [join] *)
Lemma split_nonempty sep s : split sep s <> [].
Proof. induction s as [|c s IH]; simpl; [done |]. destruct (Ascii.eqb c sep); [done |]. by destruct (split sep s). Qed.

Lemma join_cons sep x y l : join sep (x :: y :: l) = x +:+ sep +:+ join sep (y :: l).
Proof. done. Qed.

(** Joining the pieces with the separator gives the string back. *)
Lemma join_split sep s : join (String sep "") (split sep s) = s.
Proof.
  induction s as [|c s IH]; [done |].
  pose proof (split_nonempty sep s) as Hne.
  cbn [split]. destruct (split sep s) as [|y l]; [done |].
  destruct (Ascii.eqb c sep) eqn:E.
  - apply Ascii.eqb_eq in E as ->.
    rewrite join_cons, IH. done.
  - destruct l as [|z l].
    + unfold join in *. simpl in *. by rewrite IH.
    + rewrite join_cons in *. rewrite <- IH. done.
Qed.

End StrFacts.

(** ** The synthesized markup *)
Module SynthFacts.
Import PyStr Spec StrFacts Blog.
#[local] Arguments String.append !_ _ / : simpl nomatch.

(** Flatten nested appends and fuse the literals. *)
Ltac str_norm :=
  repeat (progress (rewrite ?app_assoc, ?app_nil_r; simpl)).

Lemma concat_all_sep (f : string -> string) sep x l :
  concat_all (map (fun t => f t +:+ sep) (x :: l)) = join sep (map f (x :: l)) +:+ sep.
Proof.
  revert x. induction l as [|y l IH]; intros x.
  - simpl. by rewrite app_nil_r.
  - change (concat_all (map (fun t => f t +:+ sep) (x :: y :: l)))
      with ((f x +:+ sep) +:+ concat_all (map (fun t => f t +:+ sep) (y :: l))).
    rewrite IH. change (map f (x :: y :: l)) with (f x :: f y :: map f l).
    rewrite join_cons. change (map f (y :: l)) with (f y :: map f l).
    by rewrite !app_assoc.
Qed.

Lemma tag_span_shape tag :
  exists body, tag_span tag = String "<"%char body +:+ ">".
Proof.
  unfold tag_span.
  exists ("span class=" +:+ quoted "tag" +:+ " data-tag=" +:+ quoted (lower tag)
          +:+ ">" +:+ tag +:+ "</span").
  by str_norm.
Qed.

Lemma join_spans_shape sep x l :
  exists body, join sep (map tag_span (x :: l)) = String "<"%char body +:+ ">".
Proof.
  revert x. induction l as [|y l IH]; intros x.
  - apply tag_span_shape.
  - change (map tag_span (x :: y :: l)) with (tag_span x :: tag_span y :: map tag_span l).
    rewrite join_cons. destruct (IH y) as [b Hb].
    change (tag_span y :: map tag_span l) with (map tag_span (y :: l)).
    rewrite Hb. destruct (tag_span_shape x) as [bx ->].
    exists (bx +:+ ">" +:+ sep +:+ String "<"%char b). by str_norm.
Qed.

(** The final [strip] of [tags_html] removes the last separator and
    nothing else. *)
Lemma tags_html_join x l :
  tags_html (x :: l) = join (nl +:+ spaces 10) (map tag_span (x :: l)).
Proof.
  unfold tags_html. rewrite (concat_all_sep tag_span).
  destruct (join_spans_shape (nl +:+ spaces 10) x l) as [b ->].
  unfold strip.
  change ((String "<" b +:+ ">") +:+ nl +:+ spaces 10)
    with (String "<"%char ((b +:+ ">") +:+ nl +:+ spaces 10)).
  rewrite lstrip_fixed by done.
  change (String "<"%char ((b +:+ ">") +:+ nl +:+ spaces 10))
    with ((String "<"%char b +:+ ">") +:+ nl +:+ spaces 10).
  rewrite rstrip_app. rewrite (rstrip_blank (nl +:+ spaces 10)) by done.
  simpl truthy. cbv iota. apply (rstrip_last (String "<" b) ">"). done.
Qed.
End SynthFacts.

(** ** The file name of the links *)
Module FilenameFacts.
Import PyStr Spec StrFacts Blog SynthFacts.
#[local] Arguments String.append !_ _ / : simpl nomatch.

Lemma endswith_spec s suffix :
  endswith s suffix = true <-> exists p, s = p +:+ suffix.
Proof.
  split.
  - induction s as [|c s IH]; cbn [endswith].
    + rewrite orb_false_r. intros ->%String.eqb_eq. by exists "".
    + intros [->%String.eqb_eq | H]%orb_prop; [by exists "" |].
      destruct (IH H) as [p ->]. by exists (String c p).
  - intros [p ->]. induction p as [|c p IH].
    + change ("" +:+ suffix) with suffix.
      destruct suffix; cbn [endswith]; by rewrite String.eqb_refl.
    + change (String c p +:+ suffix) with (String c (p +:+ suffix)).
      cbn [endswith]. rewrite IH. apply orb_true_r.
Qed.

Lemma lower_app s t : lower (s +:+ t) = lower s +:+ lower t.
Proof. induction s as [|c s IH]; simpl; [done | by rewrite IH]. Qed.

Lemma lower_length s : String.length (lower s) = String.length s.
Proof. induction s as [|c s IH]; simpl; [done | by rewrite IH]. Qed.

(** A lowered string splits where the original does. *)
Lemma lower_split s a b :
  lower s = a +:+ b -> exists x y, s = x +:+ y /\ lower x = a /\ lower y = b.
Proof.
  revert s. induction a as [|c a IH]; intros s H.
  - by exists "", s.
  - destruct s as [|d s]; [done |]. simpl in H. injection H as Hc Hs.
    destruct (IH s Hs) as (x & y & -> & <- & <-).
    exists (String d x), y. simpl. by rewrite Hc.
Qed.


Ltac by_cases c :=
  destruct c as [[] [] [] [] [] [] [] []]; vm_compute;
  (split; [ first [ discriminate | intros _; (left; reflexivity) || (right; reflexivity) ]
          | intros [H | H]; first [ reflexivity | discriminate H ] ]).

Lemma lower_char_dot c : lower_char c = "."%char <-> c = "."%char.
Proof.
  destruct c as [[] [] [] [] [] [] [] []]; vm_compute;
    (split; [ first [ discriminate | reflexivity ] | first [ discriminate | reflexivity ] ]).
Qed.
Lemma lower_char_h c : lower_char c = "h"%char <-> either "h" "H" c.
Proof. unfold either. by_cases c. Qed.
Lemma lower_char_t c : lower_char c = "t"%char <-> either "t" "T" c.
Proof. unfold either. by_cases c. Qed.
Lemma lower_char_m c : lower_char c = "m"%char <-> either "m" "M" c.
Proof. unfold either. by_cases c. Qed.
Lemma lower_char_l c : lower_char c = "l"%char <-> either "l" "L" c.
Proof. unfold either. by_cases c. Qed.

(** The test of the program is the suffix test of the specification. *)
Lemma lowered_suffix_spec s :
  endswith (lower s) ".html" = true <-> html_suffix s.
Proof.
  rewrite endswith_spec. split.
  - intros [p Hp]. apply lower_split in Hp as (x & y & -> & _ & Hy).
    destruct y as [|c0 [|c1 [|c2 [|c3 [|c4 [|]]]]]]; try discriminate.
    simpl in Hy. injection Hy as H0 H1 H2 H3 H4.
    apply lower_char_dot in H0 as ->.
    exists x, c1, c2, c3, c4. split; [done |].
    by rewrite <- lower_char_h, <- lower_char_t, <- lower_char_m, <- lower_char_l.
  - intros (p & h & t & m & l & -> & Hh & Ht & Hm & Hl).
    exists (lower p). rewrite lower_app. simpl.
    apply lower_char_h in Hh. apply lower_char_t in Ht.
    apply lower_char_m in Hm. apply lower_char_l in Hl.
    rewrite Hh, Ht, Hm, Hl. done.
Qed.

End FilenameFacts.

(** ** The identifier allocator *)
Module AllocFacts.
Import PyStr Spec StrFacts Soup Blog.
#[local] Arguments String.append !_ _ / : simpl nomatch.

Lemma span_digits_spec s :
  let '(ds, rest) := span_digits s in
  s = ds +:+ rest /\ all_digits ds = true
  /\ match rest with
     | EmptyString => True
     | String c _ => isdigit c = false
     end.
Proof.
  induction s as [|c s IH]; simpl; [done |].
  destruct (isdigit c) eqn:Hc.
  - destruct (span_digits s) as [ds rest]. destruct IH as (-> & Hd & Hr).
    simpl. by rewrite Hc, Hd.
  - done.
Qed.

Lemma span_digits_all ds :
  all_digits ds = true -> span_digits ds = (ds, "").
Proof.
  induction ds as [|c ds IH]; simpl; [done |].
  intros [Hc Hd]%andb_prop. by rewrite Hc, (IH Hd).
Qed.

Lemma span_digits_newline ds :
  all_digits ds = true -> span_digits (ds +:+ nl) = (ds, nl).
Proof.
  induction ds as [|c ds IH]; simpl; [done |].
  intros [Hc Hd]%andb_prop. by rewrite Hc, (IH Hd).
Qed.

Lemma all_digits_app a b : all_digits (a +:+ b) = all_digits a && all_digits b.
Proof. induction a as [|c a IH]; simpl; [done | by rewrite IH, andb_assoc]. Qed.

Lemma strip_prefix_spec p s r : strip_prefix p s = Some r <-> s = p +:+ r.
Proof.
  revert s. induction p as [|a p IH]; intros s; simpl.
  - split; [by intros [= ->] | by intros ->].
  - destruct s as [|b s]; [done |].
    destruct (Ascii.eqb a b) eqn:E.
    + apply Ascii.eqb_eq in E as ->. rewrite IH. split; [by intros -> | by intros [= ->]].
    + apply Ascii.eqb_neq in E. split; [done | by intros [= -> _]].
Qed.

(** What the first regular expression accepts: [post], digits, and
    then nothing or one line feed. *)
Lemma search_post_id_spec s :
  Re.search_post_id s = true
  <-> exists ds, truthy ds = true /\ all_digits ds = true
                 /\ (s = "post" +:+ ds \/ s = "post" +:+ ds +:+ nl).
Proof.
  unfold Re.search_post_id. split.
  - destruct (strip_prefix "post" s) as [r|] eqn:E; [| done].
    apply strip_prefix_spec in E as ->.
    pose proof (span_digits_spec r) as H.
    destruct (span_digits r) as [ds rest]. destruct H as (-> & Hd & _).
    intros [Ht Hr]%andb_prop. exists ds. split; [done |]. split; [done |].
    unfold Re.at_dollar in Hr.
    apply orb_prop in Hr as [->%String.eqb_eq | ->%String.eqb_eq].
    + left. by rewrite app_nil_r.
    + by right.
  - intros (ds & Ht & Hd & [-> | ->]).
    + rewrite (proj2 (strip_prefix_spec "post" _ ds)) by done.
      rewrite (span_digits_all ds Hd). by rewrite Ht.
    + rewrite (proj2 (strip_prefix_spec "post" _ (ds +:+ nl))) by done.
      rewrite (span_digits_newline ds Hd). by rewrite Ht.
Qed.

Lemma post_number_spec s k :
  post_number s = Some k
  <-> exists ds, truthy ds = true /\ all_digits ds = true
                 /\ s = "post" +:+ ds /\ k = int_of_digits ds.
Proof.
  unfold post_number. split.
  - destruct (strip_prefix "post" s) as [r|] eqn:E; [| done].
    apply strip_prefix_spec in E as ->.
    destruct (truthy r && all_digits r) eqn:H; [| done].
    apply andb_prop in H as [Ht Hd]. intros [= <-]. by exists r.
  - intros (ds & Ht & Hd & -> & ->).
    rewrite (proj2 (strip_prefix_spec "post" _ ds)) by done.
    by rewrite Ht, Hd.
Qed.

Lemma omap_cons {A B} (f : A -> option B) x (l : list A) :
  omap f (x :: l)
  = match f x with Some y => y :: omap f l | None => omap f l end.
Proof. done. Qed.

Lemma is_post_matches n :
  is_post n = true ->
  exists g, Re.match_post_num (get "id" "" n) = Some g
            /\ truthy g = true /\ all_digits g = true.
Proof.
  unfold is_post, get. intros [_ Hp]%andb_prop.
  destruct (attr "id" n) as [v|]; [| done].
  unfold Re.search_post_id in Hp. unfold Re.match_post_num.
  destruct (strip_prefix "post" v) as [r|]; [| done].
  pose proof (span_digits_spec r) as H.
  destruct (span_digits r) as [ds rest]. destruct H as (_ & Hd & _).
  apply andb_prop in Hp as [Ht _]. rewrite Ht. eauto.
Qed.

(** [int] on a match of [\d+]. *)
Lemma int_digits lim g :
  truthy g = true -> all_digits g = true ->
  int lim g
  = if exceeds lim (String.length g)
    then Raised (msg_limit_int lim (String.length g))
    else Returned (int_of_digits g).
Proof. intros Ht Hd. unfold int. by rewrite Ht, Hd. Qed.

Lemma exceeds_no_limit d : exceeds 0 d = false.
Proof. done. Qed.

Lemma readable_no_limit n : More.readable 0 n = true.
Proof. unfold More.readable. by destruct (More.digits_read n). Qed.

(** The loop returns when every number it meets is within the limit,
    and then with the largest of them. *)
Lemma max_loop_readable lim l a :
  Forall (fun e => More.readable lim (snd e) = true) l ->
  max_loop lim a (List.filter (fun e => is_post (snd e)) l)
  = Returned (N.max a (max_of (omap (fun e => read_number (snd e)) l))).
Proof.
  intros Hall. revert a. induction Hall as [|e l He _ IH]; intros a.
  - unfold max_of. simpl. f_equal. lia.
  - rewrite omap_cons. cbn [List.filter]. unfold read_number at 1.
    unfold More.readable, More.digits_read in He.
    destruct (is_post (snd e)) eqn:Hp; [| apply IH].
    destruct (is_post_matches _ Hp) as (g & Hg & Ht & Hd).
    cbn [max_loop]. rewrite Hg in *. rewrite (int_digits lim g Ht Hd).
    cbn [fmap option_fmap option_map] in *.
    apply negb_true_iff in He. rewrite He, IH. f_equal.
    unfold max_of at 2. cbn [foldr].
    fold (max_of (omap (fun e => read_number (snd e)) l)).
    destruct (N.ltb_spec a (int_of_digits g)); lia.
Qed.

(** It raises at the first number beyond the limit. *)
Lemma max_loop_returned lim l a m :
  max_loop lim a (List.filter (fun e => is_post (snd e)) l) = Returned m ->
  Forall (fun e => More.readable lim (snd e) = true) l.
Proof.
  revert a. induction l as [|e l IH]; intros a H; [constructor |].
  cbn [List.filter] in H. unfold More.readable, More.digits_read.
  destruct (is_post (snd e)) eqn:Hp.
  - destruct (is_post_matches _ Hp) as (g & Hg & Ht & Hd).
    cbn [max_loop] in H. rewrite Hg in *. rewrite (int_digits lim g Ht Hd) in H.
    cbn [fmap option_fmap option_map].
    destruct (exceeds lim (String.length g)) eqn:Hx; [discriminate H |].
    constructor; [by rewrite Hp, Hg; cbn; rewrite Hx | by apply (IH _ H)].
  - constructor; [by rewrite Hp | by apply (IH _ H)].
Qed.

(** The allocator, case by case. *)
Lemma find_next_post_id_readable lim soup :
  Forall (fun e => More.readable lim (snd e) = true) (descendants soup) ->
  find_next_post_id lim soup
  = let number :=
      numeral (max_of (omap (fun e => read_number (snd e)) (descendants soup)) + 1) in
    if exceeds lim (String.length number) then Raised (msg_limit_str lim)
    else Returned ("post" +:+ number).
Proof.
  intros Hall. unfold find_next_post_id, find_all.
  rewrite (max_loop_readable lim _ 0 Hall). rewrite N.max_r by lia.
  unfold str. cbv zeta. by destruct (exceeds lim _).
Qed.

Lemma find_next_post_id_returned lim soup next_id :
  find_next_post_id lim soup = Returned next_id ->
  Forall (fun e => More.readable lim (snd e) = true) (descendants soup)
  /\ exceeds lim
       (String.length
          (numeral (max_of (omap (fun e => read_number (snd e)) (descendants soup)) + 1)))
     = false
  /\ next_id
     = "post"
       +:+ numeral (max_of (omap (fun e => read_number (snd e)) (descendants soup)) + 1).
Proof.
  intros H.
  assert (Forall (fun e => More.readable lim (snd e) = true) (descendants soup))
    as Hall.
  { unfold find_next_post_id, find_all in H.
    destruct (max_loop lim 0 _) as [m|e] eqn:E; [| discriminate H].
    by apply (max_loop_returned _ _ _ _ E). }
  split; [done |].
  rewrite (find_next_post_id_readable lim soup Hall) in H. cbv zeta in H.
  destruct (exceeds lim _); [discriminate H |]. by injection H as <-.
Qed.

Lemma find_next_post_id_no_limit soup :
  find_next_post_id 0 soup
  = Returned
      ("post"
       +:+ numeral (max_of (omap (fun e => read_number (snd e)) (descendants soup)) + 1)).
Proof.
  rewrite find_next_post_id_readable; [done |].
  apply Forall_forall. intros e _. apply readable_no_limit.
Qed.

Lemma read_number_exact n :
  (forall v, attr "id" n = Some v -> endswith v nl = false) ->
  read_number n = entry_number n.
Proof.
  intros Hnl. unfold read_number, entry_number, is_post, get.
  destruct (named "article" n); [| done]. simpl.
  destruct (attr "id" n) as [v|] eqn:Ev; [| done]. simpl.
  specialize (Hnl v eq_refl).
  destruct (Re.search_post_id v) eqn:Hs.
  - apply search_post_id_spec in Hs as (ds & Ht & Hd & [-> | ->]).
    + unfold Re.match_post_num.
      rewrite (proj2 (strip_prefix_spec "post" _ ds)) by done.
      rewrite (span_digits_all ds Hd), Ht. simpl. symmetry.
      apply post_number_spec. by exists ds.
    + exfalso. assert (endswith ("post" +:+ ds +:+ nl) nl = true); [| congruence].
      apply FilenameFacts.endswith_spec. exists ("post" +:+ ds). by rewrite app_assoc.
  - destruct (post_number v) as [k|] eqn:Hk; [| done].
    apply post_number_spec in Hk as (ds & Ht & Hd & -> & ->).
    assert (Re.search_post_id ("post" +:+ ds) = true); [| congruence].
    apply search_post_id_spec. exists ds. auto.
Qed.

Lemma omap_ext_in {A B} (f g : A -> option B) (l : list A) :
  (forall x, x ∈ l -> f x = g x) -> omap f l = omap g l.
Proof.
  induction l as [|x l IH]; intros H; [done |].
  rewrite !omap_cons, (H x) by apply list_elem_of_here.
  rewrite IH; [done |]. intros y Hy. apply H. by apply list_elem_of_further.
Qed.

Lemma numbers_exact soup :
  (forall e v, e ∈ descendants soup -> attr "id" (snd e) = Some v ->
               endswith v nl = false) ->
  omap (fun e => read_number (snd e)) (descendants soup)
  = omap (fun e => entry_number (snd e)) (descendants soup).
Proof.
  intros H. apply omap_ext_in. intros e He.
  apply read_number_exact. intros v Hv. by apply (H e v).
Qed.

(** On a document in which no identifier ends with a line feed, the
    allocator, when it returns, returns the identifier of the
    specification. *)
Lemma find_next_post_id_exact lim soup next_id :
  (forall e v, e ∈ descendants soup -> attr "id" (snd e) = Some v ->
               endswith v nl = false) ->
  find_next_post_id lim soup = Returned next_id ->
  next_id = next_post_id soup.
Proof.
  intros H (_ & _ & ->)%find_next_post_id_returned.
  unfold next_post_id. by rewrite (numbers_exact soup H).
Qed.
End AllocFacts.

(** ** Paths, updates and the traversal of the tree *)
Module SoupFacts.
Import PyStr Spec Soup.

Lemma node_ind (P : node -> Prop) :
  (forall nm ats cs, Forall P cs -> P (Tag nm ats cs)) ->
  (forall t, P (NavigableString t)) ->
  forall n, P n.
Proof.
  intros HT HS. fix IH 1. intros [nm ats cs | t]; [apply HT | apply HS].
  induction cs as [|c cs IHcs]; constructor; [apply IH | apply IHcs].
Qed.

(** *** Paths and [get_at] *)
Lemma get_at_app p r n : get_at (p ++ r) n = get_at p n ≫= get_at r.
Proof.
  revert n. induction p as [|i p IH]; intros n; simpl; [done |].
  destruct (contents_of n !! i) as [c|]; simpl; [apply IH | done].
Qed.

Lemma alter_at_contents f i q nm ats cs :
  alter_at f (i :: q) (Tag nm ats cs) = Tag nm ats (alter (alter_at f q) i cs).
Proof. done. Qed.

(** The altered node holds the image of the old one. *)
Lemma get_at_alter_at f p n :
  get_at p (alter_at f p n) = f <$> get_at p n.
Proof.
  revert n. induction p as [|i p IH]; intros n; [done |].
  destruct n as [nm ats cs | t]; [| done]. cbn [alter_at get_at contents_of].
  rewrite list_lookup_alter_eq.
  destruct (cs !! i) as [c|]; simpl; [apply IH | done].
Qed.

(** A path that leaves the way to [p] sees the tree as it was. *)
Lemma get_at_alter_at_off f p q n :
  ~ p `prefix_of` q -> ~ q `prefix_of` p ->
  get_at q (alter_at f p n) = get_at q n.
Proof.
  revert q n. induction p as [|i p IH]; intros q n Hpq Hqp.
  - destruct Hpq. apply prefix_nil.
  - destruct q as [|j q]; [destruct Hqp; apply prefix_nil |].
    destruct n as [nm ats cs | t]; [| done]. cbn [alter_at get_at contents_of].
    destruct (decide (i = j)) as [<- | Hij].
    + rewrite list_lookup_alter_eq. destruct (cs !! i) as [c|]; simpl; [| done].
      apply IH.
      * intros H. apply Hpq. by apply prefix_cons.
      * intros H. apply Hqp. by apply prefix_cons.
    + by rewrite list_lookup_alter_ne.
Qed.

(** Above [p] the nodes keep their names and attributes. *)
Lemma get_at_alter_at_above f p q n :
  q `prefix_of` p -> q <> p ->
  label <$> get_at q (alter_at f p n) = label <$> get_at q n.
Proof.
  revert p n. induction q as [|j q IH]; intros p n Hqp Hne.
  - destruct p as [|i p]; [done |]. by destruct n.
  - destruct p as [|i p]; [by apply prefix_nil_inv in Hqp |].
    pose proof (prefix_cons_inv_1 _ _ _ _ Hqp) as ->.
    apply prefix_cons_inv_2 in Hqp.
    destruct n as [nm ats cs | t]; [| done]. cbn [alter_at get_at contents_of].
    rewrite list_lookup_alter_eq. destruct (cs !! i) as [c|]; simpl; [| done].
    apply IH; [done | congruence].
Qed.

Lemma insert_front x y nm ats cs :
  insert 0 x (insert 0 y (Tag nm ats cs)) = Tag nm ats (x :: y :: cs).
Proof. done. Qed.

Lemma alter_at_compose f g p n :
  alter_at g p (alter_at f p n) = alter_at (fun m => g (f m)) p n.
Proof.
  revert n. induction p as [|i p IH]; intros n; [done |].
  destruct n as [nm ats cs | t]; [| done]. cbn [alter_at]. f_equal.
  rewrite list_alter_alter_eq. apply list_alter_ext; [| done].
  intros c _. apply IH.
Qed.

(** The two calls of [insert] on the container splice the document. *)
Lemma insert_twice_spliced p text new_post soup nm ats cs :
  get_at p soup = Some (Tag nm ats cs) ->
  spliced p text new_post soup
    (alter_at (insert 0 (NavigableString text)) p
       (alter_at (insert 0 new_post) p soup)).
Proof.
  intros Hp. rewrite alter_at_compose. split.
  - exists nm, ats, cs. split; [done |]. by rewrite get_at_alter_at, Hp.
  - intros q. apply get_at_alter_at_off.
  - intros q. apply get_at_alter_at_above.
Qed.

(** The children that were there follow the two new ones. *)
Lemma spliced_shift p text new_post soup soup' i r :
  spliced p text new_post soup soup' ->
  get_at (p ++ S (S i) :: r) soup' = get_at (p ++ i :: r) soup.
Proof.
  intros [(nm & ats & cs & H & H') _ _]. by rewrite !get_at_app, H, H'.
Qed.

(** *** The traversal *)
Lemma walk_children_app i l1 l2 :
  walk_children walk i (l1 ++ l2)
  = walk_children walk i l1 ++ walk_children walk (length l1 + i) l2.
Proof.
  revert i. induction l1 as [|c l1 IH]; intros i; [done |].
  cbn [walk_children app length]. rewrite IH, <- app_assoc.
  by rewrite Nat.add_succ_r.
Qed.

(** The traversal lists each node once: it holds [(q, m)] exactly when
    [m] is the node at [q]. *)
Lemma elem_of_walk_children q m i l :
  (forall c, c ∈ l -> forall q m, (q, m) ∈ walk c <-> get_at q c = Some m) ->
  (q, m) ∈ walk_children walk i l
  <-> exists j q', q = (i + j)%nat :: q' /\ l !! j ≫= get_at q' = Some m.
Proof.
  revert i. induction l as [|c l IH]; intros i Hl.
  - cbn [walk_children]. rewrite elem_of_nil. split; [done |].
    by intros (j & q' & _ & H).
  - cbn [walk_children]. rewrite elem_of_app, IH, list_elem_of_fmap.
    2: { intros c' Hc'. apply Hl. by apply list_elem_of_further. }
    split.
    + intros [([q' m'] & [= -> ->] & H) | (j & q' & -> & H)].
      * exists 0%nat, q'. rewrite Nat.add_0_r. split; [done |].
        apply Hl in H; [done | apply list_elem_of_here].
      * exists (S j), q'. split; [f_equal; lia | done].
    + intros (j & q' & -> & H). destruct j as [|j].
      * left. exists (q', m). rewrite Nat.add_0_r. split; [done |].
        apply Hl; [apply list_elem_of_here | done].
      * right. exists j, q'. split; [f_equal; lia | done].
Qed.

Lemma elem_of_walk n : forall q m, (q, m) ∈ walk n <-> get_at q n = Some m.
Proof.
  induction n as [nm ats cs IH | t] using node_ind; intros q m.
  - cbn [walk]. rewrite elem_of_cons, elem_of_walk_children.
    2: { intros c Hc. by apply (proj1 (Forall_forall _ _) IH). }
    split.
    + intros [[= -> ->] | (j & q' & -> & H)]; [done | done].
    + destruct q as [|j q']; [intros [= ->]; by left |].
      intros H. right. by exists j, q'.
  - cbn [walk]. rewrite elem_of_cons, elem_of_nil.
    split.
    + by intros [[= -> ->] | []].
    + destruct q as [|j q']; [intros [= ->]; by left | done].
Qed.

Lemma elem_of_descendants n q m :
  (q, m) ∈ descendants n <-> q <> [] /\ get_at q n = Some m.
Proof.
  unfold descendants. rewrite elem_of_walk_children.
  2: { intros c _. apply elem_of_walk. }
  split.
  - by intros (j & q' & -> & H).
  - destruct q as [|j q']; [by intros [] |]. intros [_ H]. by exists j, q'.
Qed.
End SoupFacts.

(** ** Document order *)
Module OrderFacts.
Import PyStr Spec Soup SoupFacts.

Lemma precedes_irrefl p : precedes p p = false.
Proof.
  induction p as [|i p IH]; [done |]. cbn [precedes].
  by rewrite Nat.ltb_irrefl, Nat.eqb_refl, IH.
Qed.

Lemma precedes_asym q p : precedes q p = true -> precedes p q = false.
Proof.
  revert p. induction q as [|i q IH]; intros [|j p]; try done.
  cbn [precedes].
  destruct (Nat.ltb_spec i j), (Nat.ltb_spec j i), (Nat.eqb_spec i j),
    (Nat.eqb_spec j i); try lia; simpl; try done.
  apply IH.
Qed.

Lemma precedes_cons i q p : precedes (i :: q) (i :: p) = precedes q p.
Proof. cbn [precedes]. by rewrite Nat.ltb_irrefl, Nat.eqb_refl. Qed.

Lemma sorted_fmap_cons i l :
  StronglySorted before l ->
  StronglySorted before (map (fun '(q, m) => (i :: q, m)) l).
Proof.
  induction 1 as [|[q m] l Hl IH Hall]; [constructor |].
  cbn [map]. constructor; [done |].
  apply Forall_fmap. eapply Forall_impl; [exact Hall |].
  intros [q' m'] H. unfold before in *. simpl in *.
  by rewrite Nat.ltb_irrefl, Nat.eqb_refl.
Qed.

Lemma walk_children_heads i l x :
  x ∈ walk_children walk i l -> exists j q, fst x = (i + j)%nat :: q.
Proof.
  destruct x as [q m]. rewrite elem_of_walk_children.
  - intros (j & q' & -> & _). by exists j, q'.
  - intros c _. apply elem_of_walk.
Qed.

Lemma walk_children_sorted i l :
  Forall (fun c => StronglySorted before (walk c)) l ->
  StronglySorted before (walk_children walk i l).
Proof.
  intros H. revert i. induction H as [|c l Hc Hl IH]; intros i; [constructor |].
  cbn [walk_children]. apply StronglySorted_app_2; [| by apply sorted_fmap_cons | apply IH].
  intros x y Hx Hy. apply list_elem_of_fmap in Hx as ([q m] & -> & _).
  apply walk_children_heads in Hy as (j & q' & Hy).
  destruct y as [qy my]. unfold before. simpl in *. subst qy.
  destruct (Nat.ltb_spec i (S (i + j))); [done | lia].
Qed.

(** The traversal is in document order. *)
Lemma walk_sorted n : StronglySorted before (walk n).
Proof.
  induction n as [nm ats cs IH | t] using node_ind; cbn [walk].
  - constructor; [by apply walk_children_sorted |].
    apply Forall_forall. intros x Hx.
    apply walk_children_heads in Hx as (j & q & Hx).
    destruct x as [qx mx]. unfold before. simpl in *. by subst qx.
  - repeat constructor.
Qed.

Lemma descendants_sorted n : StronglySorted before (descendants n).
Proof.
  unfold descendants. apply walk_children_sorted.
  apply Forall_forall. intros c _. apply walk_sorted.
Qed.

Lemma head_filter_sorted (crit : path * node -> bool) l x :
  StronglySorted before l ->
  head (List.filter crit l) = Some x ->
  x ∈ l /\ crit x = true
  /\ forall y, y ∈ l -> crit y = true -> precedes (fst y) (fst x) = false.
Proof.
  induction 1 as [|a l Hl IH Hall]; [done |]. cbn [List.filter].
  destruct (crit a) eqn:Ha.
  - intros [= <-]. split; [apply list_elem_of_here |]. split; [done |].
    intros y [-> | Hy]%elem_of_cons _; [apply precedes_irrefl |].
    apply precedes_asym. by apply (proj1 (Forall_forall _ _) Hall).
  - intros H. destruct (IH H) as (Hx & Hc & Hmin).
    split; [by apply list_elem_of_further |]. split; [done |].
    intros y [-> | Hy]%elem_of_cons Hcy; [congruence | by apply Hmin].
Qed.

(** [find] returns the first node, in document order, that meets the
    criteria. *)
Lemma find_first crit soup p n :
  find crit soup = Some (p, n) -> first_match crit soup p n.
Proof.
  unfold find, find_all. intros H.
  apply head_filter_sorted in H as (Hin & Hc & Hmin); [| apply descendants_sorted].
  apply elem_of_descendants in Hin as [Hne Hget].
  split; [done |]. split; [done |]. split; [done |].
  intros q m Hq Hm Hcm. apply (Hmin (q, m)); [| done].
  by apply elem_of_descendants.
Qed.

End OrderFacts.

(** ** The entries across a splice *)
Module EntryFacts.
Import PyStr Spec Soup SoupFacts.

Lemma labels_app l1 l2 : labels (l1 ++ l2) = labels l1 ++ labels l2.
Proof. apply map_app. Qed.

Lemma labels_walk_children i cs :
  labels (walk_children walk i cs) = labels_below cs.
Proof.
  revert i. induction cs as [|c cs IH]; intros i; [done |].
  cbn [walk_children]. rewrite labels_app, IH. unfold labels_below.
  cbn [map concat]. f_equal. unfold labels. rewrite map_map.
  apply map_ext. by intros [q m].
Qed.

Lemma labels_walk_tag nm ats cs :
  labels (walk (Tag nm ats cs)) = inl (nm, ats) :: labels_below cs.
Proof. cbn [walk]. unfold labels at 1. cbn [map]. f_equal. apply labels_walk_children. Qed.

Lemma labels_below_app l1 l2 :
  labels_below (l1 ++ l2) = labels_below l1 ++ labels_below l2.
Proof. unfold labels_below. by rewrite map_app, concat_app. Qed.

Lemma labels_below_cons c l :
  labels_below (c :: l) = labels (walk c) ++ labels_below l.
Proof. done. Qed.

Lemma alter_middle {A} (g : A -> A) i (l : list A) x :
  l !! i = Some x -> alter g i l = take i l ++ g x :: drop (S i) l.
Proof.
  revert i. induction l as [|a l IH]; intros [|i] H; try done.
  - by injection H as ->.
  - cbn. f_equal. by apply IH.
Qed.

Lemma labels_descendants n :
  labels (walk n) = label n :: labels (descendants n).
Proof.
  destruct n as [nm ats cs | t]; [| done].
  rewrite labels_walk_tag. unfold descendants. by rewrite labels_walk_children.
Qed.

(** Splicing adds the labels of the new nodes at one place of the
    traversal and moves no other. *)
Lemma labels_walk_splice x y p n nm ats cs :
  get_at p n = Some (Tag nm ats cs) ->
  exists l1 l2,
    labels (walk n) = label n :: l1 ++ l2
    /\ labels (walk (alter_at (fun m => insert 0 x (insert 0 y m)) p n))
       = label n :: l1 ++ (labels (walk x) ++ labels (walk y)) ++ l2.
Proof.
  revert n. induction p as [|i p IH]; intros n Hn.
  - injection Hn as ->. cbn [alter_at]. rewrite insert_front.
    exists [], (labels_below cs).
    rewrite !labels_walk_tag. split; [done |].
    rewrite !labels_below_cons. cbn [label app]. by rewrite <- app_assoc.
  - destruct n as [nm' ats' cs' | t]; [| done]. cbn [get_at contents_of] in Hn.
    destruct (cs' !! i) as [c|] eqn:Hc; [| done]. cbn in Hn.
    destruct (IH c Hn) as (a1 & a2 & E1 & E2).
    assert (labels_below cs'
            = labels_below (take i cs') ++ labels (walk c)
              ++ labels_below (drop (S i) cs')) as Hcs.
    { rewrite <- labels_below_cons, <- labels_below_app.
      by rewrite take_drop_middle. }
    cbn [alter_at]. rewrite (alter_middle _ _ _ _ Hc), !labels_walk_tag.
    rewrite Hcs, labels_below_app, labels_below_cons, E1, E2.
    exists (labels_below (take i cs') ++ label c :: a1),
           (a2 ++ labels_below (drop (S i) cs')).
    cbn [label]. split; f_equal; repeat (rewrite <- app_assoc || rewrite <- app_comm_cons); done.
Qed.

Lemma entry_ids_labels l : entry_ids l = omap id_of_label (labels l).
Proof.
  unfold entry_ids, labels. induction l as [|[q m] l IH]; [done |].
  cbn [map]. rewrite !AllocFacts.omap_cons, IH. by destruct m.
Qed.

(** The identifiers of the entries after the splice: those of before, in
    their order, and those inside the new post at one place. *)
Lemma entry_ids_spliced text new_post p soup nm ats cs :
  get_at p soup = Some (Tag nm ats cs) ->
  exists l1 l2,
    entry_ids (descendants soup) = l1 ++ l2
    /\ entry_ids (descendants
                    (alter_at (insert 0 (NavigableString text)) p
                       (alter_at (insert 0 new_post) p soup)))
       = l1 ++ entry_ids (walk new_post) ++ l2.
Proof.
  intros Hget. rewrite alter_at_compose.
  destruct (labels_walk_splice (NavigableString text) new_post p soup nm ats cs Hget)
    as (a1 & a2 & E1 & E2).
  rewrite (labels_descendants soup) in E1.
  rewrite (labels_descendants (alter_at _ _ _)) in E2.
  injection E1 as E1. injection E2 as _ E2.
  rewrite !entry_ids_labels, E1, E2.
  exists (omap id_of_label a1), (omap id_of_label a2).
  rewrite !omap_app. split; [done |]. f_equal.
  rewrite AllocFacts.omap_cons. cbn [id_of_label]. apply omap_app.
Qed.
End EntryFacts.

(** ** Fragment synthesis *)
Module Synthesis.
Import PyStr Spec StrFacts Blog SynthFacts FilenameFacts Eff.
#[local] Arguments String.append !_ _ / : simpl nomatch.

Lemma synthesize_some next_id title tags_str description read_time date_str post_filename :
  clean_tags tags_str <> [] ->
  synthesize next_id title tags_str description read_time date_str post_filename
  = Some (new_post_html_str (join ", " (clean_tags tags_str)) date_str next_id
            read_time (html_filename post_filename) title
            (tags_html (clean_tags tags_str)) description).
Proof. unfold synthesize. by destruct (clean_tags tags_str). Qed.

Lemma synthesize_none next_id title tags_str description read_time date_str post_filename :
  clean_tags tags_str = [] ->
  synthesize next_id title tags_str description read_time date_str post_filename = None.
Proof. unfold synthesize. by intros ->. Qed.

Lemma synthesize_cases next_id title tags_str description read_time date_str post_filename :
  match synthesize next_id title tags_str description read_time date_str post_filename with
  | Some html =>
      clean_tags tags_str <> []
      /\ html = new_post_html_str (join ", " (clean_tags tags_str)) date_str next_id
            read_time (html_filename post_filename) title
            (tags_html (clean_tags tags_str)) description
  | None => clean_tags tags_str = []
  end.
Proof. unfold synthesize. by destruct (clean_tags tags_str). Qed.

(** The tags in the markup: for a tag string whose cleaned list is not
    empty, the markup of the new entry opens with the text [data-tags=]
    and, between double quotes, the tags joined by a comma and a space,
    in the order and the casing of the input; and its tag list holds one
    [span] per tag in that order, written with the lowered tag between
    the quotes of [data-tag] and the tag as typed as its text.  Nothing
    is escaped on the way. *)
Lemma synthesize_tag_list
  next_id title tags_str description read_time date_str post_filename :
  clean_tags tags_str <> [] ->
  exists html rest pre post,
    synthesize next_id title tags_str description read_time date_str
      post_filename = Some html
    /\ html = "<article class=" +:+ quoted "post-card" +:+ " data-tags="
              +:+ quoted (join ", " (clean_tags tags_str)) +:+ rest
    /\ html = pre +:+ "<div class=" +:+ quoted "post-tags" +:+ ">"
              +:+ nl +:+ spaces 10
              +:+ join (nl +:+ spaces 10)
                    (map (fun tag =>
                            "<span class=" +:+ quoted "tag" +:+ " data-tag="
                            +:+ quoted (lower tag) +:+ ">" +:+ tag +:+ "</span>")
                       (clean_tags tags_str))
              +:+ nl +:+ spaces 8 +:+ "</div>" +:+ post.
Proof.
  intros Hne. rewrite (synthesize_some _ _ _ _ _ _ _ Hne).
  destruct (clean_tags tags_str) as [|x l] eqn:E; [done |].
  rewrite tags_html_join. set (body := join (nl +:+ spaces 10) _).
  set (target := html_filename post_filename).
  exists (new_post_html_str (join ", " (x :: l)) date_str next_id read_time
            target title body description).
  exists (" data-date=" +:+ quoted date_str +:+ " id=" +:+ quoted next_id +:+ ">"
          +:+ meta_block date_str read_time +:+ heading target title
          +:+ tags_block body +:+ excerpt_block description
          +:+ read_more target +:+ article_close).
  exists (article_open (join ", " (x :: l)) date_str next_id
          +:+ meta_block date_str read_time +:+ heading target title
          +:+ nl +:+ spaces 8).
  exists (excerpt_block description +:+ read_more target +:+ article_close).
  split; [done |]. unfold new_post_html_str, article_open, tags_block.
  split; by rewrite !app_assoc.
Qed.


(** The description in the markup: the text written between the tags of
    the excerpt paragraph is the description as it was handed to the
    core operation, between the line breaks and indentation of the
    template, so that trimmed it is the trimmed description; and the
    description the form hands over is the text of its widget trimmed.
    Nothing is escaped on the way. *)
Lemma excerpt_holds_description
  next_id title tags_str description read_time date_str post_filename (f : form) :
  match synthesize next_id title tags_str description read_time date_str
          post_filename with
  | Some html =>
      exists pre post,
        html = pre +:+ "<p class=" +:+ quoted "post-excerpt" +:+ ">"
               +:+ (nl +:+ spaces 10 +:+ description +:+ nl +:+ spaces 8)
               +:+ "</p>" +:+ post
  | None => clean_tags tags_str = []
  end
  /\ strip (nl +:+ spaces 10 +:+ description +:+ nl +:+ spaces 8)
     = strip description
  /\ (exists w1 w2, all_space w1 = true /\ all_space w2 = true
                    /\ description = w1 +:+ strip description +:+ w2)
  /\ submitted_description f = strip (desc_text f)
  /\ strip (submitted_description f) = submitted_description f
  /\ forall P F w,
       match validate_inputs f with
       | None =>
           submit_post P F f w
           = let '(o, w') :=
               add_blog_post P F (file_path_var f) (title_entry f)
                 (tags_entry f) (strip (desc_text f)) (read_time_entry f)
                 (date_var f) (filename_entry f) w in
             (match o with
              | Returned (true, message) => Returned (showinfo "Success" message)
              | Returned (false, message) => Returned (showerror "Error" message)
              | Raised e => Raised e
              end, w')
       | Some warning => submit_post P F f w = (Returned warning, w)
       end.
Proof.
  assert (Hsub : submitted_description f = strip (desc_text f)).
  { unfold submitted_description, desc_get.
    rewrite <- (strip_pad "" (desc_text f) nl) by done. done. }
  split; [| split; [| split; [| split; [| split]]]].
  - pose proof (synthesize_cases next_id title tags_str description read_time
                  date_str post_filename) as H.
    destruct (synthesize _ _ _ _ _ _ _) as [html|]; [| done].
    destruct H as [_ ->].
    set (tags := tags_html _). set (attr := join _ _).
    set (target := html_filename _).
    exists (article_open attr date_str next_id +:+ meta_block date_str read_time
            +:+ heading target title +:+ tags_block tags +:+ nl +:+ spaces 8).
    exists (read_more target +:+ article_close).
    unfold new_post_html_str, excerpt_block. by rewrite !app_assoc.
  - rewrite <- (app_assoc nl (spaces 10)).
    apply (strip_pad (nl +:+ spaces 10) description (nl +:+ spaces 8)); done.
  - apply strip_split.
  - done.
  - rewrite Hsub. apply strip_idem.
  - intros P F w. unfold submit_post. rewrite Hsub.
    destruct (validate_inputs f); [done |].
    unfold bind. destruct (add_blog_post _ _ _ _ _ _ _ _ _ w) as [[[[] m]|e] w']; done.
Qed.

(** C7 (the code departs from the claim): with the one tag made of [A],
    a double quote and [b], the claimed value of the tag-list attribute
    is that tag, and the claimed machine-readable value of its display
    element is the tag lowered.  The markup is written without escaping,
    so the double quote of the tag closes the value it stands in: the
    value of [data-tags] read off the markup from which the entry is
    parsed is [A], and that of [data-tag] is [a]. *)
Theorem quote_in_tag_ends_attribute :
  let tags_str := "A" +:+ dq +:+ "b" in
  clean_tags tags_str = [tags_str]
  /\ join ", " (clean_tags tags_str) = "A" +:+ dq +:+ "b"
  /\ lower tags_str = "a" +:+ dq +:+ "b"
  /\ exists after_quote pre after_quote',
       synthesize "post1" "Hello" tags_str "World" "2 min read" "Jan 01, 2025"
         "hello"
       = Some ("<article class=" +:+ quoted "post-card" +:+ " data-tags=" +:+ dq
               +:+ after_quote)
       /\ up_to "034" after_quote = "A"
       /\ synthesize "post1" "Hello" tags_str "World" "2 min read" "Jan 01, 2025"
            "hello"
          = Some (pre +:+ "<span class=" +:+ quoted "tag" +:+ " data-tag=" +:+ dq
                  +:+ after_quote')
       /\ up_to "034" after_quote' = "a".
Proof.
  cbv zeta. split; [by vm_compute |]. split; [by vm_compute |].
  split; [by vm_compute |].
  eexists _,
    (article_open ("A" +:+ dq +:+ "b") "Jan 01, 2025" "post1"
     +:+ meta_block "Jan 01, 2025" "2 min read" +:+ heading "hello.html" "Hello"
     +:+ nl +:+ spaces 8 +:+ "<div class=" +:+ quoted "post-tags" +:+ ">"
     +:+ nl +:+ spaces 10), _.
  split; [cbv; reflexivity |]. split; [by vm_compute |].
  split; [cbv; reflexivity |]. by vm_compute.
Qed.

(** C9 (the code departs from the claim): with the description
    [a</p>b], which is trimmed already, the markup is written without
    escaping, so the end tag inside the description closes the excerpt
    paragraph: the text of the paragraph opened by the template runs up
    to that end tag, and trimmed it is [a], not the description. *)
Theorem end_tag_in_description_ends_excerpt :
  let description := "a</p>b" in
  strip description = description
  /\ exists pre body rest,
       synthesize "post1" "Hello" "A, b" description "2 min read" "Jan 01, 2025"
         "hello"
       = Some (pre +:+ "<p class=" +:+ quoted "post-excerpt" +:+ ">" +:+ body)
       /\ body = up_to "<" body +:+ "</p>" +:+ rest
       /\ up_to "<" body = nl +:+ spaces 10 +:+ "a"
       /\ strip (up_to "<" body) = "a"
       /\ strip (up_to "<" body) <> description.
Proof.
  cbv zeta. split; [by vm_compute |].
  eexists
    (article_open "A, b" "Jan 01, 2025" "post1"
     +:+ meta_block "Jan 01, 2025" "2 min read" +:+ heading "hello.html" "Hello"
     +:+ tags_block (tags_html ["A"; "b"]) +:+ nl +:+ spaces 8), _, _.
  split; [cbv; reflexivity |]. split; [cbv; reflexivity |].
  split; [by vm_compute |]. split; [by vm_compute |]. by vm_compute.
Qed.
End Synthesis.
(** ** The file system *)
Module FsFacts.
Import PyStr Spec Eff.

Lemma resolve_final hops fs p f :
  resolve hops fs p = Some f -> forall q, fs !! f <> Some (Link q).
Proof.
  revert p. induction hops as [|n IH]; intros p H q; cbn [resolve] in H.
  - destruct (fs !! p) as [[| b | q']|] eqn:E; simplify_eq; congruence.
  - destruct (fs !! p) as [[| b | q']|] eqn:E; simplify_eq; try congruence.
    by apply (IH q').
Qed.

Lemma resolve_insert hops fs f b p :
  (forall q, fs !! f <> Some (Link q)) ->
  resolve hops (<[f := Regular b]> fs) p = resolve hops fs p.
Proof.
  intros Hf. revert p. induction hops as [|n IH]; intros p; cbn [resolve].
  - destruct (decide (p = f)) as [-> | Hne].
    + rewrite lookup_insert_eq.
      destruct (fs !! f) as [[| b' | q]|] eqn:E; try done; by destruct (Hf q).
    + by rewrite lookup_insert_ne.
  - destruct (decide (p = f)) as [-> | Hne].
    + rewrite lookup_insert_eq.
      destruct (fs !! f) as [[| b' | q]|] eqn:E; try done; by destruct (Hf q).
    + rewrite lookup_insert_ne by done.
      destruct (fs !! p) as [[| b' | q]|]; try done; apply IH.
Qed.

(** The name a path leads to is bound to no link. *)
Lemma locate_final w p f :
  locate w p = Some f -> forall q, names w !! f <> Some (Link q).
Proof. apply resolve_final. Qed.

(** Writing a file moves no link. *)
Lemma locate_store w f b p :
  (forall q, names w !! f <> Some (Link q)) ->
  locate (store f b w) p = locate w p.
Proof. intros Hf. by apply resolve_insert. Qed.

Lemma names_warned yes w : names (warned yes w) = names w.
Proof. by destruct yes. Qed.

Lemma locate_warned yes w p : locate (warned yes w) p = locate w p.
Proof. by destruct yes. Qed.

Lemma entry_at_warned yes w p : entry_at (warned yes w) p = entry_at w p.
Proof. by destruct yes. Qed.

Lemma file_at_warned yes w p : file_at (warned yes w) p = file_at w p.
Proof. by destruct yes. Qed.

Lemma store_warned yes f b w : store f b (warned yes w) = warned yes (store f b w).
Proof. by destruct yes. Qed.

Lemma console_store f b w : console (store f b w) = console w.
Proof. done. Qed.

Lemma store_store f b b' w : store f b (store f b' w) = store f b w.
Proof. unfold store. cbn [names console]. by rewrite insert_insert_eq. Qed.

Lemma file_at_spec w p b :
  file_at w p = Some b
  <-> exists f, locate w p = Some f /\ names w !! f = Some (Regular b).
Proof.
  unfold file_at, entry_at. split.
  - destruct (locate w p) as [f|]; [| done]. cbn.
    destruct (names w !! f) as [[| b' | q]|] eqn:E; try done.
    intros [= ->]. eauto.
  - intros (f & -> & Hf). cbn. by rewrite Hf.
Qed.

(** After a write to the file a path leads to, the path leads to the
    bytes written. *)
Lemma file_at_store_here w p f b :
  locate w p = Some f -> file_at (store f b w) p = Some b.
Proof.
  intros Hp. apply file_at_spec. exists f.
  rewrite locate_store by apply (locate_final w p f Hp).
  split; [done |]. apply lookup_insert_eq.
Qed.

(** A write to another file is not seen. *)
Lemma file_at_store_other w p f' f b :
  locate w p = Some f' -> f' <> f ->
  (forall q, names w !! f <> Some (Link q)) ->
  file_at (store f b w) p = file_at w p.
Proof.
  intros Hp Hne Hf. unfold file_at, entry_at.
  rewrite (locate_store w f b p Hf), Hp. cbn.
  by rewrite lookup_insert_ne.
Qed.

Lemma samefile_false w a b fa fb :
  samefile w a b = false -> locate w a = Some fa -> locate w b = Some fb ->
  is_Some (names w !! fa) -> fa <> fb.
Proof.
  unfold samefile. intros H Ha Hb Hsome ->. rewrite Ha, Hb in H.
  by rewrite !bool_decide_true in H.
Qed.

Lemma samefile_true w a b :
  samefile w a b = true ->
  exists f, locate w a = Some f /\ locate w b = Some f /\ is_Some (names w !! f).
Proof.
  unfold samefile. destruct (locate w a) as [fa|]; [| done].
  destruct (locate w b) as [fb|]; [| done].
  intros [->%bool_decide_eq_true Hs%bool_decide_eq_true]%andb_prop. eauto.
Qed.

Lemma samefile_warned yes w a b : samefile (warned yes w) a b = samefile w a b.
Proof. by destruct yes. Qed.

Lemma isdir_warned yes w p : isdir (warned yes w) p = isdir w p.
Proof. by destruct yes. Qed.

Lemma backup_name_warned P yes w path :
  backup_name P (warned yes w) path = backup_name P w path.
Proof. by destruct yes. Qed.

(** The page and the place of its backup, two files. *)
Lemma two_files w path target r t raw :
  locate w path = Some r -> names w !! r = Some (Regular raw) ->
  samefile w path target = false -> locate w target = Some t ->
  r <> t
  /\ file_at w path = Some raw
  /\ (forall x, file_at (store t x w) path = Some raw)
  /\ (forall x, file_at (store t x w) target = Some x)
  /\ (forall x y, file_at (store r y (store t x w)) path = Some y)
  /\ (forall x y, file_at (store r y (store t x w)) target = Some x).
Proof.
  intros Hloc Hreg Hsame Ht.
  assert (r <> t) as Hne.
  { apply (samefile_false _ _ _ _ _ Hsame Hloc Ht). by rewrite Hreg. }
  pose proof (locate_final w target t Ht) as Hfin.
  assert (forall x q, names (store t x w) !! r <> Some (Link q)) as Hfin'.
  { intros x q. cbn [names store]. rewrite lookup_insert_ne by done.
    by rewrite Hreg. }
  assert (forall x, locate (store t x w) path = Some r) as Hloc'.
  { intros x. by rewrite locate_store. }
  assert (forall x, locate (store t x w) target = Some t) as Ht'.
  { intros x. by rewrite locate_store. }
  split; [done |]. split; [apply file_at_spec; eauto |].
  split; [| split; [| split]].
  - intros x. rewrite (file_at_store_other w path r t x Hloc Hne Hfin).
    apply file_at_spec. eauto.
  - intros x. by apply file_at_store_here.
  - intros x y. by apply file_at_store_here.
  - intros x y.
    rewrite (file_at_store_other (store t x w) target t r y (Ht' x)); [| done | done].
    by apply file_at_store_here.
Qed.

(** Outside the two files nothing is written. *)
Lemma names_store_other f b w q : q <> f -> names (store f b w) !! q = names w !! q.
Proof. intros H. cbn [names store]. by rewrite lookup_insert_ne. Qed.

Section Calls.
Variable P : platform.
Variable F : faults.

Lemma truncate_warned yes p w :
  truncate p (warned yes w)
  = let '(o, w') := truncate p w in (o, warned yes w').
Proof.
  destruct yes; [| unfold warned; by destruct (truncate p w) as [[? | ?] ?]].
  unfold truncate, locate. cbn [warned names].
  destruct (resolve max_links (names w) p) as [f|]; [| done].
  by destruct (names w !! f) as [[| b | q]|].
Qed.

(** What an opening for writing that returned has done. *)
Lemma truncate_returned path w f w' :
  truncate path w = (Returned f, w') ->
  locate w path = Some f
  /\ names w !! f <> Some Directory
  /\ (forall q, names w !! f <> Some (Link q))
  /\ w' = store f [] w.
Proof.
  unfold truncate. destruct (locate w path) as [f0|] eqn:E; [| done].
  pose proof (locate_final w path f0 E) as Hfin.
  destruct (names w !! f0) as [[| b | q]|] eqn:E'; intros H; simplify_eq.
  all: try (by destruct (Hfin q)).
  all: repeat split; try done; by rewrite E'.
Qed.

Lemma truncate_raised path w e w' :
  truncate path w = (Raised e, w') -> w' = w.
Proof.
  unfold truncate. destruct (locate w path) as [f0|]; [| by intros [= _ <-]].
  destruct (names w !! f0) as [[| b | q]|]; by intros [= <-] || intros [= _ <-].
Qed.

Lemma truncate_file path w f b :
  locate w path = Some f -> names w !! f = Some (Regular b) ->
  truncate path w = (Returned f, store f [] w).
Proof. unfold truncate. by intros -> ->. Qed.

Lemma write_bytes_fresh f b w :
  write_bytes f b (store f [] w) = (Returned tt, store f b w).
Proof.
  unfold write_bytes. cbn [names store]. rewrite lookup_insert_eq.
  cbn [app]. by rewrite store_store.
Qed.

Lemma read_bytes_file path w f b :
  locate w path = Some f -> names w !! f = Some (Regular b) ->
  read_bytes path w = (Returned b, w).
Proof. unfold read_bytes, entry_at. intros -> Hf. cbn. by rewrite Hf. Qed.

(** [shutil.copy2] of a file that is there, outcome by outcome. *)
Lemma copy2_run path w r raw :
  locate w path = Some r -> names w !! r = Some (Regular raw) ->
  copy2 P F path (path +:+ ".bak") w
  = let target := backup_name P w path in
    if samefile w path target then
      (Raised (path +:+ " and " +:+ target +:+ " are the same file"), w)
    else
      match copy_fault F with
      | Some (e, None) => (Raised e, w)
      | Some (e, Some b) =>
          match truncate target w with
          | (Returned t, _) => (Raised e, store t b w)
          | (Raised e', _) => (Raised e', w)
          end
      | None =>
          match truncate target w with
          | (Returned t, _) => (Returned tt, store t raw w)
          | (Raised e', _) => (Raised e', w)
          end
      end.
Proof.
  intros Hloc Hreg. unfold copy2. fold (backup_name P w path). cbv zeta.
  destruct (samefile w path (backup_name P w path)); [done |].
  destruct (copy_fault F) as [[e [b|]]|]; [| done |].
  - unfold bind, raise.
    destruct (truncate (backup_name P w path) w) as [[t|e'] w0] eqn:Et.
    + apply truncate_returned in Et as (_ & _ & _ & ->).
      by rewrite write_bytes_fresh.
    + by apply truncate_raised in Et as ->.
  - unfold bind. rewrite (read_bytes_file path w r raw Hloc Hreg).
    destruct (truncate (backup_name P w path) w) as [[t|e'] w0] eqn:Et.
    + apply truncate_returned in Et as (_ & _ & _ & ->).
      by rewrite write_bytes_fresh.
    + by apply truncate_raised in Et as ->.
Qed.

End Calls.
End FsFacts.

(** ** The insertion, outcome by outcome *)
Module RunFacts.
Import PyStr Spec Soup Eff Blog FsFacts.

Section Run.
Variable P : platform.
Variable F : faults.

Lemma find_insertion_point_run soup w :
  find_insertion_point soup w
  = match container soup with
    | Some (main_content, yes) => (Returned (Some main_content), warned yes w)
    | None => (Returned None, w)
    end.
Proof.
  unfold find_insertion_point, container.
  destruct (find is_blog_main soup); [done |].
  by destruct (find (named "main") soup).
Qed.

(** Step 7, for a page that is the regular file [r] holding [raw]. *)
Lemma write_back_plain soup path title w r raw :
  locate w path = Some r -> names w !! r = Some (Regular raw) ->
  write_back P F soup path title w
  = let target := backup_name P w path in
    if samefile w path target then
      (Returned
         (false,
          msg_write path (path +:+ " and " +:+ target +:+ " are the same file")),
       w)
    else
      match truncate target w with
      | (Raised e', _) =>
          match copy_fault F with
          | Some (e, None) => (Returned (false, msg_write path e), w)
          | _ => (Returned (false, msg_write path e'), w)
          end
      | (Returned t, _) =>
          match copy_fault F with
          | Some (e, None) => (Returned (false, msg_write path e), w)
          | Some (e, Some b) =>
              (Returned (false, msg_write path e), store t b w)
          | None =>
              let w1 := store t raw w in
              match open_fault F with
              | Some e => (Returned (false, msg_write path e), w1)
              | None =>
                  match prettify P soup with
                  | Raised e =>
                      (Returned (false, msg_write path e), store r [] w1)
                  | Returned text =>
                      match encode P text with
                      | Raised e =>
                          (Returned (false, msg_write path e), store r [] w1)
                      | Returned b =>
                          match write_fault F with
                          | Some (e, k) =>
                              (Returned (false, msg_write path e),
                               store r (take k b) w1)
                          | None =>
                              (Returned
                                 (true,
                                  "Successfully added post '" +:+ title
                                  +:+ "' to " +:+ basename P path +:+ "." +:+ nl
                                  +:+ "Backup saved as "
                                  +:+ basename P (path +:+ ".bak")),
                               store r b w1)
                          end
                      end
                  end
              end
          end
      end.
Proof.
  intros Hloc Hreg. unfold write_back, bind, attempt.
  rewrite (copy2_run P F path w r raw Hloc Hreg). cbv zeta.
  destruct (samefile w path (backup_name P w path)) eqn:Esame; [done |].
  destruct (truncate (backup_name P w path) w) as [[t|e'] w0] eqn:Et.
  - destruct (copy_fault F) as [[e [b|]]|]; [done | done |].
    apply truncate_returned in Et as (Ht & _ & Hfin & _).
    assert (r <> t) as Hne.
    { apply (samefile_false _ _ _ _ _ Esame Hloc Ht). by rewrite Hreg. }
    unfold open_w, ret, raise. destruct (open_fault F) as [e|]; [done |].
    rewrite (truncate_file path (store t raw w) r raw).
    + unfold lift, write_text, raise.
      destruct (prettify P soup) as [text|e]; [| done].
      destruct (encode P text) as [b|e]; [| done].
      destruct (write_fault F) as [[e k]|].
      * unfold bind. by rewrite write_bytes_fresh.
      * by rewrite write_bytes_fresh.
    + by rewrite locate_store.
    + cbn [names store]. by rewrite lookup_insert_ne.
  - by destruct (copy_fault F) as [[e [b|]]|].
Qed.

(** The same after the warning of step 3, if any. *)
Lemma write_back_run soup path title yes w r raw :
  locate w path = Some r -> names w !! r = Some (Regular raw) ->
  write_back P F soup path title (warned yes w)
  = let target := backup_name P w path in
    if samefile w path target then
      (Returned
         (false,
          msg_write path (path +:+ " and " +:+ target +:+ " are the same file")),
       warned yes w)
    else
      match truncate target w with
      | (Raised e', _) =>
          match copy_fault F with
          | Some (e, None) => (Returned (false, msg_write path e), warned yes w)
          | _ => (Returned (false, msg_write path e'), warned yes w)
          end
      | (Returned t, _) =>
          match copy_fault F with
          | Some (e, None) => (Returned (false, msg_write path e), warned yes w)
          | Some (e, Some b) =>
              (Returned (false, msg_write path e), warned yes (store t b w))
          | None =>
              let w1 := store t raw w in
              match open_fault F with
              | Some e => (Returned (false, msg_write path e), warned yes w1)
              | None =>
                  match prettify P soup with
                  | Raised e =>
                      (Returned (false, msg_write path e), warned yes (store r [] w1))
                  | Returned text =>
                      match encode P text with
                      | Raised e =>
                          (Returned (false, msg_write path e), warned yes (store r [] w1))
                      | Returned b =>
                          match write_fault F with
                          | Some (e, k) =>
                              (Returned (false, msg_write path e),
                               warned yes (store r (take k b) w1))
                          | None =>
                              (Returned
                                 (true,
                                  "Successfully added post '" +:+ title
                                  +:+ "' to " +:+ basename P path +:+ "." +:+ nl
                                  +:+ "Backup saved as "
                                  +:+ basename P (path +:+ ".bak")),
                               warned yes (store r b w1))
                          end
                      end
                  end
              end
          end
      end.
Proof.
  intros Hloc Hreg.
  rewrite (write_back_plain soup path title (warned yes w) r raw)
    by (by rewrite ?locate_warned, ?names_warned).
  cbv zeta. rewrite backup_name_warned, samefile_warned, truncate_warned.
  destruct (samefile w path (backup_name P w path)); [done |].
  destruct (truncate (backup_name P w path) w) as [[t|e'] w0].
  - destruct (copy_fault F) as [[e [b|]]|]; [by rewrite ?store_warned | done |].
    destruct (open_fault F) as [e|]; [by rewrite ?store_warned |].
    destruct (prettify P soup) as [text|e]; [| by rewrite ?store_warned].
    destruct (encode P text) as [b|e]; [| by rewrite ?store_warned].
    destruct (write_fault F) as [[e k]|]; by rewrite ?store_warned.
  - by destruct (copy_fault F) as [[e [b|]]|].
Qed.

(** The whole operation. *)
Lemma add_blog_post_run path title tags desc rt date fn w :
  add_blog_post P F path title tags desc rt date fn w
  = match locate w path with
    | None => (Returned (false, msg_not_found path), w)
    | Some r =>
        match names w !! r with
        | None => (Returned (false, msg_not_found path), w)
        | Some en =>
            if negb (truthy path) then (Returned (false, msg_not_found path), w)
            else
              match read_fault F with
              | Some e => (Returned (false, msg_read path e), w)
              | None =>
                  match en with
                  | Regular raw =>
                      match decode P raw with
                      | Raised e => (Returned (false, msg_read path e), w)
                      | Returned content =>
                          match BeautifulSoup P content with
                          | Raised e =>
                              (Returned (false, "Error parsing HTML: " +:+ e), w)
                          | Returned soup =>
                              match container soup with
                              | None => (Returned (false, msg_no_main), w)
                              | Some (main_content, yes) =>
                                  match find_next_post_id (int_max_str_digits P)
                                          soup with
                                  | Raised e => (Raised e, warned yes w)
                                  | Returned next_id =>
                                      match synthesize next_id title tags desc
                                              rt date fn with
                                      | None =>
                                          (Returned (false, msg_no_tag),
                                           warned yes w)
                                      | Some html =>
                                          match insert_new_post P soup
                                                  (fst main_content) html with
                                          | inl early =>
                                              (Returned early, warned yes w)
                                          | inr soup' =>
                                              write_back P F soup' path title
                                                (warned yes w)
                                          end
                                      end
                                  end
                              end
                          end
                      end
                  | _ =>
                      (Returned
                         (false, msg_read path ("Is a directory: " +:+ path)),
                       w)
                  end
              end
        end
    end.
Proof.
  unfold add_blog_post, path_exists, read_text, read_bytes, entry_at, attempt,
    ret, lift, raise, bind.
  destruct (locate w path) as [r|] eqn:Hloc; cbn [mbind option_bind].
  - destruct (names w !! r) as [en|] eqn:Hen.
    + rewrite bool_decide_true by eauto. rewrite orb_false_r.
      destruct (negb (truthy path)); [done |].
      destruct (read_fault F) as [e|]; [done |].
      rewrite Hloc. cbn [mbind option_bind]. rewrite Hen.
      destruct en as [| raw | q]; [done | | done].
      destruct (decode P raw) as [content|e]; [| done].
      destruct (BeautifulSoup P content) as [soup|e]; [| done].
      rewrite find_insertion_point_run.
      destruct (container soup) as [[main_content yes]|]; [| done].
      destruct (find_next_post_id _ soup) as [next_id|e]; [| done].
      destruct (synthesize _ _ _ _ _ _ _); [| done].
      by destruct (insert_new_post _ _ _ _).
    + rewrite bool_decide_false by (by intros [? ?]). by rewrite orb_true_r.
  - rewrite bool_decide_false by (by intros [? ?]). by rewrite orb_true_r.
Qed.

(** Step 6. *)
Lemma insert_new_post_run soup main_content html :
  insert_new_post P soup main_content html
  = match BeautifulSoup P html with
    | Raised e => inl (false, "Error inserting new post HTML: " +:+ e)
    | Returned new_soup =>
        match find (named "article") new_soup with
        | Some new_post_soup =>
            inr (with_new_post main_content (snd new_post_soup) soup)
        | None => inl (false, msg_no_article)
        end
    end.
Proof. done. Qed.

End Run.

End RunFacts.
(** ** The insertion: splice, backup and failures *)
Module Insertion.
Import PyStr Spec Soup Eff Blog FsFacts RunFacts.

(** Step 7 of a run whose page is known to be a regular file. *)
Ltac step7 P F :=
  match goal with
  | Hl : locate ?w ?path = Some ?r,
    Hn : names ?w !! ?r = Some (Regular ?raw) |- _ =>
      rewrite (write_back_run P F _ path _ _ w r raw Hl Hn) in *
  end.

(** A run, outcome by outcome. *)
Ltac run_cases P F :=
  rewrite (add_blog_post_run P F) in *;
  repeat (rewrite ?(insert_new_post_run P) in *; cbv zeta in *; case_match);
  simplify_eq;
  try (step7 P F; cbv zeta in *; repeat case_match; simplify_eq).

(** What is known of the page and of the place of its backup. *)
Ltac fs_facts :=
  repeat match goal with
    | H : truncate _ _ = (Returned _, _) |- _ =>
        apply truncate_returned in H as (? & ? & ? & ?)
    end;
  try match goal with
    | Hl : locate ?w ?path = Some ?r,
      Hn : names ?w !! ?r = Some (Regular ?raw),
      Hs : samefile ?w ?path ?target = false,
      Ht : locate ?w ?target = Some ?t |- _ =>
        destruct (two_files w path target r t raw Hl Hn Hs Ht)
          as (? & ? & ? & ? & ? & ?)
    end.

(** Reading the files of the world after the run. *)
Ltac fs_read :=
  rewrite ?file_at_warned, ?names_warned;
  repeat match goal with
    | H : forall x : list Byte.byte, file_at _ _ = _ |- _ =>
        progress (rewrite ?H)
    | H : forall x y : list Byte.byte, file_at _ _ = _ |- _ =>
        progress (rewrite ?H)
    end.

Lemma container_is_tag soup p main_content yes :
  container soup = Some (p, main_content, yes) ->
  exists ats cs, get_at p soup = Some (Tag "main" ats cs)
                 /\ main_content = Tag "main" ats cs.
Proof.
  unfold container. intros H.
  assert (get_at p soup = Some main_content /\ named "main" main_content = true)
    as [Hget Hnamed].
  { destruct (find is_blog_main soup) as [[p' m']|] eqn:E1.
    - injection H as -> -> _.
      apply OrderFacts.find_first in E1 as (_ & Hg & Hc & _).
      split; [done |]. unfold is_blog_main in Hc. by apply andb_prop in Hc as [? _].
    - destruct (find (named "main") soup) as [[p' m']|] eqn:E2; [| done].
      injection H as -> -> _.
      by apply OrderFacts.find_first in E2 as (_ & Hg & Hc & _). }
  destruct main_content as [nm ats cs | t]; [| done].
  apply String.eqb_eq in Hnamed as ->. eauto.
Qed.

(** What a successful run did. *)
Lemma success_inv P F path title tags desc rt date fn w msg w' :
  add_blog_post P F path title tags desc rt date fn w = (Returned (true, msg), w') ->
  exists r raw content soup p main_content yes next_id html new_soup q new_post
         text b t,
    locate w path = Some r
    /\ names w !! r = Some (Regular raw)
    /\ decode P raw = Returned content
    /\ BeautifulSoup P content = Returned soup
    /\ container soup = Some (p, main_content, yes)
    /\ find_next_post_id (int_max_str_digits P) soup = Returned next_id
    /\ synthesize next_id title tags desc rt date fn = Some html
    /\ BeautifulSoup P html = Returned new_soup
    /\ find (named "article") new_soup = Some (q, new_post)
    /\ prettify P (with_new_post p new_post soup) = Returned text
    /\ encode P text = Returned b
    /\ samefile w path (backup_name P w path) = false
    /\ locate w (backup_name P w path) = Some t
    /\ w' = warned yes (store r b (store t raw w)).
Proof.
  intros Hrun. run_cases P F. fs_facts.
  match goal with H : container _ = Some (?pm, _) |- _ => destruct pm as [p m] end.
  match goal with H : find (named "article") _ = Some ?x |- _ => destruct x as [q np] end.
  repeat eexists; try eassumption; try reflexivity.
Qed.


(** C2: after a successful insertion the document written to the file is
    the document read from it with a white-space string and then the new
    entry put in front of the children of the container: the new entry
    is the first element of the container, the children that were there
    follow in their order, every node outside keeps its place and its
    content, and the identifiers of the entries that were there remain,
    in their order. *)
Theorem insertion_splices
  P F path title tags desc rt date fn w msg w' :
  add_blog_post P F path title tags desc rt date fn w = (Returned (true, msg), w') ->
  exists raw content soup p main_content yes next_id html new_soup q new_post
         soup' text b,
    file_at w path = Some raw
    /\ decode P raw = Returned content
    /\ BeautifulSoup P content = Returned soup
    /\ container soup = Some (p, main_content, yes)
    /\ find_next_post_id (int_max_str_digits P) soup = Returned next_id
    /\ synthesize next_id title tags desc rt date fn = Some html
    /\ BeautifulSoup P html = Returned new_soup
    /\ find (named "article") new_soup = Some (q, new_post)
    /\ all_space (nl +:+ spaces 6) = true
    /\ spliced p (nl +:+ spaces 6) new_post soup soup'
    /\ (forall i r, get_at (p ++ S (S i) :: r) soup' = get_at (p ++ i :: r) soup)
    /\ (exists before after,
          entry_ids (descendants soup) = before ++ after
          /\ entry_ids (descendants soup')
             = before ++ entry_ids (walk new_post) ++ after)
    /\ prettify P soup' = Returned text
    /\ encode P text = Returned b
    /\ file_at w' path = Some b.
Proof.
  intros Hrun.
  destruct (success_inv _ _ _ _ _ _ _ _ _ _ _ _ Hrun)
    as (r & raw & content & soup & p & mc & yes & next_id & html & new_soup & q
        & new_post & text & b & t & Hloc & Hreg & Hdec & Hparse & Hcont & Hid
        & Hsyn & Hnew & Hart & Hpretty & Henc & Hsame & Ht & ->).
  destruct (container_is_tag _ _ _ _ Hcont) as (ats & cs & Hget & ->).
  pose proof (SoupFacts.insert_twice_spliced p (nl +:+ spaces 6) new_post soup
                "main" ats cs Hget) as Hsp.
  destruct (two_files w path _ r t raw Hloc Hreg Hsame Ht)
    as (_ & Hraw & _ & _ & Hpage & _).
  exists raw, content, soup, p, (Tag "main" ats cs), yes, next_id, html, new_soup,
    q, new_post, (with_new_post p new_post soup), text, b.
  repeat (split; [done || eassumption |]).
  split; [intros i r0; by apply (SoupFacts.spliced_shift _ _ _ _ _ _ _ Hsp) |].
  split; [by apply (EntryFacts.entry_ids_spliced _ _ _ _ "main" ats cs) |].
  repeat (split; [done |]).
  by rewrite file_at_warned, Hpage.
Qed.

(** C3, as amended: the copy of the page goes to [path.bak], or into it
    under the base name of the page when [path.bak] is a directory.  A
    successful insertion leaves there the bytes the page held before the
    run, whatever was there; the page is never changed unless the copy
    holds those bytes; when the copy fails, or cannot be made because
    its place is the page itself under another name, the run fails and
    the page keeps its bytes; no name is touched but those of the page
    and of the copy. *)
Theorem backup_precedes_overwrite
  P F path title tags desc rt date fn w ok msg w' :
  add_blog_post P F path title tags desc rt date fn w = (Returned (ok, msg), w') ->
  let target := backup_name P w path in
  (isdir w (path +:+ ".bak") = false -> target = path +:+ ".bak")
  /\ (isdir w (path +:+ ".bak") = true ->
      target = path_join P (path +:+ ".bak") (basename P path))
  /\ (ok = true ->
      exists raw, file_at w path = Some raw /\ file_at w' target = Some raw)
  /\ (file_at w' path <> file_at w path ->
      exists raw, file_at w path = Some raw /\ file_at w' target = Some raw)
  /\ (copy_fault F <> None -> ok = false /\ file_at w' path = file_at w path)
  /\ (samefile w path target = true -> ok = false /\ names w' = names w)
  /\ (forall q, locate w path <> Some q -> locate w target <> Some q ->
                names w' !! q = names w !! q).
Proof.
  intros Hrun target. subst target.
  split; [unfold backup_name; by intros -> |].
  split; [unfold backup_name; by intros -> |].
  run_cases P F; fs_facts.
  all: repeat split; try done; try (intros; exfalso; congruence).
  all: try (by rewrite names_warned).
  all: try (intros; eexists; split; [eassumption | by fs_read]).
  all: try (intros; exfalso; fs_read; congruence).
  all: try (by fs_read).
  all: intros q Hq1 Hq2; rewrite names_warned;
    rewrite ?names_store_other by congruence; done.
Qed.

(** The four parts of the statement on empty tags, in a case that is
    settled. *)
Ltac early :=
  cbn [fst snd]; repeat split; try done;
  try (by intros [? | ?]); try (by intros _ []); try (by intros _ _).

(** Reading a page that is a regular file. *)
Lemma read_text_file P F path w r raw :
  locate w path = Some r -> names w !! r = Some (Regular raw) ->
  read_fault F = None ->
  read_text P F path w = (decode P raw, w).
Proof.
  intros Hloc Hreg Hrf. unfold read_text, bind, lift. rewrite Hrf.
  by rewrite (read_bytes_file path w r raw Hloc Hreg).
Qed.

(** C4, as amended: with an empty list of cleaned tags the operation
    changes no file and does not succeed.  What it returns is the error
    of the first step that fails: the missing file when the path is
    empty or leads nowhere; else the read error when the reading raises;
    else the parse error; else the structural error when no container
    is found; else, when the allocation of the identifier returns, the
    validation error.  An exception of the allocation leaves the
    operation as it is. *)
Theorem empty_tags_fail_before_writing
  P F path title tags desc rt date fn w :
  clean_tags tags = [] ->
  let run := add_blog_post P F path title tags desc rt date fn w in
  names (snd run) = names w
  /\ (forall msg, fst run <> Returned (true, msg))
  /\ (truthy path = false \/ entry_at w path = None ->
      run = (Returned (false, msg_not_found path), w))
  /\ (truthy path = true -> entry_at w path <> None ->
      match fst (read_text P F path w) with
      | Raised e => run = (Returned (false, msg_read path e), w)
      | Returned content =>
          match BeautifulSoup P content with
          | Raised e =>
              run = (Returned (false, "Error parsing HTML: " +:+ e), w)
          | Returned soup =>
              match container soup with
              | None => run = (Returned (false, msg_no_main), w)
              | Some (_, yes) =>
                  match find_next_post_id (int_max_str_digits P) soup with
                  | Returned _ =>
                      run = (Returned (false, msg_no_tag), warned yes w)
                  | Raised e => run = (Raised e, warned yes w)
                  end
              end
          end
      end).
Proof.
  intros Htags run. subst run. rewrite (add_blog_post_run P F).
  unfold read_text, read_bytes, entry_at, bind, lift, raise. cbv beta.
  destruct (locate w path) as [r|] eqn:Hloc; cbn [mbind option_bind];
    [| by early].
  destruct (names w !! r) as [en|] eqn:Hen; [| by early].
  destruct (truthy path) eqn:Hp; cbn [negb]; [| by early].
  destruct (read_fault F) as [e|]; [by early |].
  cbv beta. rewrite Hloc. cbn [mbind option_bind]. rewrite Hen.
  destruct en as [| raw | q]; [by early | | by early].
  destruct (decode P raw) as [content|e]; cbn [fst]; [| by early].
  destruct (BeautifulSoup P content) as [soup|e]; [| by early].
  destruct (container soup) as [[mc yes]|]; [| by early].
  destruct (find_next_post_id _ soup) as [next_id|e]; cbn [snd fst].
  - rewrite (Synthesis.synthesize_none _ _ _ _ _ _ _ Htags). cbn [snd fst].
    rewrite names_warned. by early.
  - rewrite names_warned. by early.
Qed.

(** C6, as amended: on every input on which the allocation of the
    identifier returns, the operation returns a result with a message
    and raises nothing, whatever the faults of reading, parsing, copying
    and writing; when it fails, the page holds what it held, or else
    the copy does. *)
Theorem failures_are_returned
  P F path title tags desc rt date fn w :
  allocation_returns P F path w ->
  exists ok msg w',
    add_blog_post P F path title tags desc rt date fn w = (Returned (ok, msg), w')
    /\ truthy msg = true
    /\ (ok = false ->
        file_at w' path = file_at w path
        \/ exists raw, file_at w path = Some raw
                       /\ file_at w' (backup_name P w path) = Some raw).
Proof.
  intros Halloc.
  destruct (add_blog_post P F path title tags desc rt date fn w) as [o w'] eqn:Hrun.
  run_cases P F; fs_facts.
  all: try match goal with
         | H : find_next_post_id _ ?soup = Raised _,
           Hl : locate _ _ = Some _, Hn : names _ !! _ = Some (Regular _),
           Hr : read_fault _ = None, Hd : decode _ _ = Returned ?content,
           Hb : BeautifulSoup _ ?content = Returned ?soup |- _ =>
             destruct (Halloc content soup) as [? ?];
             [by rewrite (read_text_file _ _ _ _ _ _ Hl Hn Hr), Hd | done
             | congruence]
         end.
  all: eexists _, _, _; split; [reflexivity |]; split; [done |]; intros _.
  all: try (left; by fs_read).
  all: right; eexists; split; [eassumption | by fs_read].
Qed.





End Insertion.

(** ** The git worker *)
Module Worker.
Import PyStr Spec Git.

Section Traces.
Variable machine : Type.
Variable popen_communicate : list string -> string -> machine -> completion * machine.

Abbreviation trace_from repo todo m := (fst (run_from machine popen_communicate repo todo m)).

(** One turn of the loop. *)
Lemma trace_from_cons repo cmd rest m :
  let '(c, m') := popen_communicate cmd repo m in
  trace_from repo (cmd :: rest) m
  = [announce cmd; Launch cmd repo; Complete c] ++ reports c
    ++ (if succeeded c then trace_from repo rest m'
        else [Emit (error (failure_text cmd c))]).
Proof.
  cbn [run_from]. destruct (popen_communicate cmd repo m) as [[out err rc|e] m'].
  - cbn [succeeded reports]. destruct (rc =? 0)%Z eqn:Hrc.
    + destruct (run_from _ _ repo rest m') as [later m'']. cbn [fst app].
      by rewrite <- app_assoc.
    + reflexivity.
  - done.
Qed.

Lemma reports_emits c : Forall (fun e => is_emit e = true) (reports c).
Proof.
  destruct c as [out err rc|e]; [| constructor]. cbn [reports].
  apply Forall_app. unfold emit_if_any.
  split; [destruct (truthy out) | destruct (truthy err)]; repeat constructor.
Qed.

Lemma launches_emits l : Forall (fun e => is_emit e = true) l -> launches l = [].
Proof. induction 1 as [|[] l H _ IH]; try done. Qed.
Lemma completions_emits l : Forall (fun e => is_emit e = true) l -> completions l = [].
Proof. induction 1 as [|[] l H _ IH]; try done. Qed.

Lemma launches_app l1 l2 : launches (l1 ++ l2) = launches l1 ++ launches l2.
Proof. apply omap_app. Qed.
Lemma completions_app l1 l2 : completions (l1 ++ l2) = completions l1 ++ completions l2.
Proof. apply omap_app. Qed.
Lemma signals_app l1 l2 : signals (l1 ++ l2) = signals l1 ++ signals l2.
Proof. apply omap_app. Qed.

(** An event that is no signal lies beyond a run of signals. *)
Lemma split_past_emits l rest t1 x t2 :
  Forall (fun e => is_emit e = true) l -> is_emit x = false ->
  l ++ rest = t1 ++ x :: t2 ->
  exists t, t1 = l ++ t /\ rest = t ++ x :: t2.
Proof.
  intros Hl Hx. revert t1. induction Hl as [|e l He _ IH]; intros t1 H.
  - by exists t1.
  - destruct t1 as [|e' t1]; cbn [app] in H.
    + injection H as -> _. congruence.
    + injection H as -> H. destruct (IH t1 H) as (t & -> & ->). by exists t.
Qed.

Lemma launches_block cmd repo c :
  launches ([announce cmd; Launch cmd repo; Complete c] ++ reports c)
  = [(cmd, repo)].
Proof.
  rewrite launches_app, (launches_emits _ (reports_emits c)). done.
Qed.

Lemma completions_block cmd repo c :
  completions ([announce cmd; Launch cmd repo; Complete c] ++ reports c) = [c].
Proof.
  rewrite completions_app, (completions_emits _ (reports_emits c)). done.
Qed.





Lemma signals_reports c :
  Forall (fun s => terminal s = false) (signals (reports c)).
Proof.
  destruct c as [out err rc|e]; [| constructor]. cbn [reports].
  rewrite signals_app. apply Forall_app. unfold emit_if_any.
  split; [destruct (truthy out) | destruct (truthy err)]; repeat constructor.
Qed.

(** The run ends with one signal, [finished] or [error], the only one of
    the two kinds; [finished] means that every command of the list was
    launched and ran to a zero status. *)
Lemma terminal_signal repo todo m :
  exists tr s,
    trace_from repo todo m = tr ++ [Emit s]
    /\ terminal s = true
    /\ Forall (fun s' => terminal s' = false) (signals tr)
    /\ (s = finished
        <-> map fst (launches tr) = todo
            /\ length (completions tr) = length todo
            /\ Forall (fun c => succeeded c = true) (completions tr)).
Proof.
  revert m. induction todo as [|cmd rest IH]; intros m.
  - exists [], finished. repeat split; try done; constructor.
  - pose proof (trace_from_cons repo cmd rest m) as E.
    destruct (popen_communicate cmd repo m) as [c m']. rewrite E. clear E.
    set (block := [announce cmd; Launch cmd repo; Complete c] ++ reports c).
    rewrite app_assoc. fold block.
    assert (Forall (fun s' => terminal s' = false) (signals block)) as Hblock.
    { unfold block. rewrite signals_app. apply Forall_app.
      split; [by repeat constructor | apply signals_reports]. }
    assert (launches block = [(cmd, repo)]) as Hl by apply launches_block.
    assert (completions block = [c]) as Hcs by apply completions_block.
    clearbody block.
    destruct (succeeded c) eqn:Hc.
    + destruct (IH m') as (tr & s & -> & Hs & Hall & Hfin).
      exists (block ++ tr), s. rewrite app_assoc. split; [done |].
      split; [done |]. rewrite signals_app, launches_app, completions_app.
      split; [by apply Forall_app |].
      rewrite Hl, Hcs. cbn [app map fst length]. rewrite Hfin. split.
      * intros (-> & -> & H). by repeat split; try constructor.
      * intros (H1 & H2 & H3). injection H1 as H1. injection H2 as H2.
        by apply Forall_cons in H3 as [_ H3].
    + exists block, (error (failure_text cmd c)).
      split; [done |]. split; [done |]. split; [done |].
      rewrite Hcs. split; [done |].
      intros (_ & _ & H). apply Forall_cons in H as [H _]. congruence.
Qed.






End Traces.

(** Under a machine on which the commit exits with status 1, the push is
    never launched. *)
Example run_stops_at_failed_commit :
  fst (run _ Demo.scripted "/repo" "msg"
         [Exited "" "" 0; Exited "out" "err" 1; Exited "" "" 0])
  = [ announce ["git"; "add"; "."];
      Launch ["git"; "add"; "."] "/repo";
      Complete (Exited "" "" 0);
      announce ["git"; "commit"; "-m"; "msg"];
      Launch ["git"; "commit"; "-m"; "msg"] "/repo";
      Complete (Exited "out" "err" 1);
      Emit (output "out");
      Emit (output "err");
      Emit (error "Command git commit -m msg failed with exit code 1") ].
Proof. reflexivity. Qed.

End Worker.
(** ** Identifier allocation *)
Module Allocation.
Import PyStr Spec Soup Blog.

(** C1 (the code departs from the claim): on a document whose only
    article has the identifier [post12] followed by a line feed, no entry
    has an identifier that is exactly [post] and digits, and the
    identifier to allocate is [post1]; the allocator counts the article
    as number 12 and returns [post13], under the digit limit of the
    interpreter and without one. *)
Theorem newline_identifier_is_counted :
  map (fun e => entry_number (snd e)) (descendants Demo.newline_id) = [None]
  /\ next_post_id Demo.newline_id = "post1"
  /\ find_next_post_id default_max_str_digits Demo.newline_id = Returned "post13"
  /\ find_next_post_id 0 Demo.newline_id = Returned "post13".
Proof. by vm_compute. Qed.

(** On the sample pages the allocator returns the next identifier. *)
Example next_after_two_posts :
  find_next_post_id default_max_str_digits Demo.home = Returned "post3".
Proof. by vm_compute. Qed.

Example first_identifier :
  find_next_post_id default_max_str_digits (Demo.root []) = Returned "post1".
Proof. by vm_compute. Qed.

(** A post number of 4301 digits is beyond the limit of 4300: the
    allocator raises; without a limit it returns. *)
Example long_identifier_raises :
  find_next_post_id default_max_str_digits Demo.long_id
  = Raised (msg_limit_int default_max_str_digits 4301)
  /\ exists next_id, find_next_post_id 0 Demo.long_id = Returned next_id.
Proof. split; [by vm_compute | eexists; by vm_compute]. Qed.

End Allocation.

(** ** The theorems at the sample inputs *)
Module Checks.
Import PyStr Spec Soup Eff Blog.

(** The sample insertion succeeds. *)
Lemma hello_runs :
  Demo.hello no_faults "blog.html" "A, b"
  = (Returned (true, Demo.ok_message), snd (Demo.hello no_faults "blog.html" "A, b")).
Proof. by vm_compute. Qed.

(** The splice theorem at the sample insertion. *)
Lemma insertion_splices_witness :
  Demo.hello no_faults "blog.html" "A, b"
  = (Returned (true, Demo.ok_message), snd (Demo.hello no_faults "blog.html" "A, b"))
  /\ exists soup p new_post soup',
       spliced p (nl +:+ spaces 6) new_post soup soup'.
Proof.
  split; [exact hello_runs |].
  destruct (Insertion.insertion_splices Demo.toy no_faults "blog.html" "Hello"
              "A, b" "World" "2 min read" "Jan 01, 2025" "hello" Demo.disk
              Demo.ok_message _ hello_runs)
    as (raw & content & soup & p & mc & yes & next_id & html & new_soup & q
        & new_post & soup' & text & b & _ & _ & _ & _ & _ & _ & _ & _ & _ & Hsp
        & _).
  by exists soup, p, new_post, soup'.
Defined.

(** The backup theorem at the sample insertion: the older backup is
    replaced by the bytes of the page. *)
Lemma backup_precedes_overwrite_witness :
  Demo.hello no_faults "blog.html" "A, b"
  = (Returned (true, Demo.ok_message), snd (Demo.hello no_faults "blog.html" "A, b"))
  /\ file_at Demo.disk "blog.html.bak" = Some (Demo.bytes_of "an older backup")
  /\ file_at (snd (Demo.hello no_faults "blog.html" "A, b")) "blog.html.bak"
     = file_at Demo.disk "blog.html".
Proof.
  split; [exact hello_runs |]. split; [by vm_compute |].
  destruct (Insertion.backup_precedes_overwrite Demo.toy no_faults "blog.html"
              "Hello" "A, b" "World" "2 min read" "Jan 01, 2025" "hello"
              Demo.disk true Demo.ok_message _ hello_runs)
    as (Hname & _ & H & _).
  destruct (H eq_refl) as (raw & H1 & H2).
  rewrite (Hname eq_refl) in H2. change ("blog.html" +:+ ".bak") with "blog.html.bak" in H2.
  by rewrite H1, H2.
Defined.

(** The sample insertion with a directory at [blog.html.bak]. *)
Lemma hello_runs_beside_directory :
  Demo.hello_on (Demo.disk_with Directory) no_faults "blog.html" "A, b"
  = (Returned (true, Demo.ok_message),
     snd (Demo.hello_on (Demo.disk_with Directory) no_faults "blog.html" "A, b")).
Proof. by vm_compute. Qed.

(** C3, the claim as the specification words it fails: with a directory
    at [blog.html.bak] the insertion succeeds, and no file
    [blog.html.bak] holds the former bytes of the page. *)
Lemma backup_lands_inside_directory : ~ backup_at_sibling.
Proof.
  intros H.
  destruct (H Demo.toy no_faults "blog.html" "Hello" "A, b" "World"
              "2 min read" "Jan 01, 2025" "hello" (Demo.disk_with Directory)
              Demo.ok_message _ hello_runs_beside_directory)
    as (raw & _ & Hbak).
  vm_compute in Hbak. discriminate Hbak.
Qed.

(** That run in detail: the copy is in the directory, under the name of
    the page; the directory is still there. *)
Example directory_run :
  let w' := snd (Demo.hello_on (Demo.disk_with Directory) no_faults "blog.html" "A, b") in
  backup_name Demo.toy (Demo.disk_with Directory) "blog.html"
  = "blog.html.bak/blog.html"
  /\ file_at w' "blog.html.bak/blog.html" = Some (Demo.bytes_of "HOME")
  /\ entry_at w' "blog.html.bak" = Some Directory
  /\ file_at w' "blog.html.bak" = None.
Proof. by vm_compute. Qed.

(** With a link to the page at [blog.html.bak] the copy is refused and
    the page is not written. *)
Example linked_backup_run :
  Demo.hello_on (Demo.disk_with (Link "blog.html")) no_faults "blog.html" "A, b"
  = (Returned
       (false,
        "Error writing file 'blog.html': blog.html and blog.html.bak are the same file"),
     Demo.disk_with (Link "blog.html")).
Proof. by vm_compute. Qed.

(** The theorem on empty tags at a tag string of blanks and a comma. *)
Lemma empty_tags_fail_before_writing_witness :
  clean_tags " , " = []
  /\ Demo.hello no_faults "blog.html" " , "
     = (Returned (false, msg_no_tag), Demo.disk).
Proof.
  split; [reflexivity |].
  destruct (Insertion.empty_tags_fail_before_writing Demo.toy no_faults
              "blog.html" "Hello" " , " "World" "2 min read" "Jan 01, 2025"
              "hello" Demo.disk eq_refl)
    as (_ & _ & _ & H).
  assert (entry_at Demo.disk "blog.html" <> None) as Hthere by (by vm_compute).
  specialize (H eq_refl Hthere).
  vm_compute in H. vm_compute. exact H.
Defined.

(** C4, the claim as the specification words it fails: with only blank
    tags and a file that is not there, the error is the missing file. *)
Lemma validation_is_not_first : ~ validation_comes_first.
Proof.
  intros H.
  destruct (H Demo.toy no_faults "missing.html" "Hello" " , " "World"
              "2 min read" "Jan 01, 2025" "hello" Demo.disk eq_refl)
    as (w' & Hrun & _).
  vm_compute in Hrun. discriminate Hrun.
Qed.


(** The theorem on failures at the sample page, the disk full at the
    write. *)
Lemma failures_are_returned_witness :
  allocation_returns Demo.toy Demo.disk_full "blog.html" Demo.disk
  /\ exists msg w',
       Demo.hello Demo.disk_full "blog.html" "A, b" = (Returned (false, msg), w')
       /\ file_at w' "blog.html.bak" = file_at Demo.disk "blog.html".
Proof.
  assert (allocation_returns Demo.toy Demo.disk_full "blog.html" Demo.disk) as Ha.
  { intros content soup Hread Hparse.
    vm_compute in Hread. injection Hread as <-.
    vm_compute in Hparse. injection Hparse as <-.
    exists "post3". by vm_compute. }
  split; [exact Ha |].
  destruct (Insertion.failures_are_returned Demo.toy Demo.disk_full "blog.html"
              "Hello" "A, b" "World" "2 min read" "Jan 01, 2025" "hello" Demo.disk
              Ha)
    as (ok & msg & w' & Hrun & _ & _).
  exists msg, w'. unfold Demo.hello, Demo.hello_on. rewrite Hrun.
  vm_compute in Hrun. by simplify_eq.
Defined.

(** C6, the claim as the specification words it fails: when the disk is
    full at the write, the file is left empty. *)
Lemma failed_write_truncates : ~ atomic_overwrite.
Proof.
  intros H.
  pose proof (H Demo.toy Demo.disk_full "blog.html" "Hello" "A, b" "World"
                "2 min read" "Jan 01, 2025" "hello" Demo.disk _ _
                (surjective_pairing _)) as H'.
  assert (write_fault Demo.disk_full <> None) as Hf by done.
  specialize (H' Hf). vm_compute in H'. discriminate H'.
Qed.

(** The run on the full disk, in detail: the backup holds the page. *)
Example full_disk_run :
  let '(r, w') := Demo.hello Demo.disk_full "blog.html" "A, b" in
  r = Returned (false, "Error writing file 'blog.html': No space left on device")
  /\ file_at w' "blog.html" = Some []
  /\ file_at w' "blog.html.bak" = Some (Demo.bytes_of "HOME")
  /\ file_at Demo.disk "blog.html" = Some (Demo.bytes_of "HOME").
Proof. by vm_compute. Qed.

(** On a page with a post number beyond the digit limit the exception
    of the allocator leaves the operation, whatever the tags: nothing is
    returned, and no file is touched. *)
Example long_identifier_escapes :
  Demo.hello no_faults "long.html" " , "
  = (Raised (msg_limit_int default_max_str_digits 4301), Demo.disk)
  /\ Demo.hello no_faults "long.html" "A, b"
     = (Raised (msg_limit_int default_max_str_digits 4301), Demo.disk).
Proof. by vm_compute. Qed.

End Checks.

(** ** The cleaned tags *)
Module Tags.
Import PyStr Spec More StrFacts Blog.
#[local] Arguments String.append !_ _ / : simpl nomatch.

Lemma has_char_app c s t : has_char c (s +:+ t) = has_char c s || has_char c t.
Proof. induction s as [|d s IH]; simpl; [done | by rewrite IH, orb_assoc]. Qed.

Lemma split_pieces_free sep s :
  Forall (fun p => has_char sep p = false) (split sep s).
Proof.
  induction s as [|c s IH]; cbn [split]; [by repeat constructor |].
  destruct (Ascii.eqb c sep) eqn:E; [by constructor |].
  destruct (split sep s) as [|hd tl]; [repeat constructor; simpl; by rewrite E |].
  apply Forall_cons in IH as [Hhd Htl]. constructor; [| done].
  simpl. by rewrite E, Hhd.
Qed.

Lemma has_char_strip c s : has_char c s = false -> has_char c (strip s) = false.
Proof.
  destruct (strip_split s) as (w1 & w2 & _ & _ & E). rewrite E at 1.
  rewrite !has_char_app. by intros [_ [H _]%orb_false_elim]%orb_false_elim.
Qed.

Lemma truthy_strip s : truthy (strip s) = negb (all_space s).
Proof.
  destruct (all_space s) eqn:E.
  - unfold strip. by rewrite lstrip_blank.
  - destruct (strip s) eqn:Es; [| done].
    destruct (strip_split s) as (w1 & w2 & H1 & H2 & Hs). rewrite Es in Hs.
    rewrite Hs, all_space_app in E. simpl in E. by rewrite H1, H2 in E.
Qed.

Lemma split_free sep s : has_char sep s = false -> split sep s = [s].
Proof.
  induction s as [|c s IH]; [done |]. simpl.
  intros [E H]%orb_false_elim. by rewrite E, (IH H).
Qed.

Lemma split_at sep a b :
  has_char sep a = false ->
  split sep (a +:+ String sep b) = a :: split sep b.
Proof.
  induction a as [|c a IH]; simpl.
  - by rewrite Ascii.eqb_refl.
  - intros [E H]%orb_false_elim. by rewrite E, (IH H).
Qed.

Lemma all_space_no_comma w : all_space w = true -> has_char "," w = false.
Proof.
  induction w as [|c w IH]; [done |]. simpl.
  intros [Hc Hw]%andb_prop. rewrite (IH Hw), orb_false_r.
  destruct (Ascii.eqb_spec c ","); [by subst | done].
Qed.

Lemma clean_tags_all_clean tags_str : Forall clean_tag (clean_tags tags_str).
Proof.
  unfold clean_tags. apply Forall_forall. intros t Ht.
  apply list_elem_of_In, in_map_iff in Ht as (p & <- & Hp).
  apply filter_In in Hp as [Hp Htruthy]. split; [done |].
  split; [apply strip_idem |]. apply has_char_strip.
  apply (proj1 (Forall_forall _ _) (split_pieces_free "," tags_str)).
  by apply list_elem_of_In.
Qed.

Lemma clean_tags_join_padded w l :
  all_space w = true -> Forall clean_tag l ->
  clean_tags (w +:+ join ", " l) = l.
Proof.
  intros Hw Hl. revert w Hw. induction Hl as [|x l (Hx1 & Hx2 & Hx3) Hl IH]; intros w Hw.
  - unfold clean_tags, join. simpl String.concat. rewrite app_nil_r.
    rewrite split_free by by apply all_space_no_comma.
    simpl. by rewrite truthy_strip, Hw.
  - assert (has_char "," (w +:+ x) = false) as Hfree.
    { by rewrite has_char_app, all_space_no_comma, Hx3. }
    assert (strip (w +:+ x) = x) as Hstrip.
    { rewrite <- (app_nil_r x) at 1. by rewrite (strip_pad w x ""). }
    destruct l as [|y l].
    + unfold clean_tags, join. simpl String.concat.
      rewrite split_free by done.
      cbn [List.filter]. rewrite Hstrip, Hx1. cbn [map]. by rewrite Hstrip.
    + rewrite join_cons.
      change (", " +:+ join ", " (y :: l))
        with (String "," (" " +:+ join ", " (y :: l))).
      rewrite <- app_assoc.
      unfold clean_tags in *. rewrite split_at by done.
      cbn [List.filter]. rewrite Hstrip, Hx1. cbn [map]. rewrite Hstrip.
      f_equal. by apply IH.
Qed.

(** X1: every tag the cleaning keeps is not empty, has no white space at
    either end and holds no comma. *)
Theorem clean_tags_clean tags_str : Forall clean_tag (clean_tags tags_str).
Proof.
  unfold clean_tags. apply Forall_forall. intros t Ht.
  apply list_elem_of_In, in_map_iff in Ht as (piece & <- & Hpiece).
  apply filter_In in Hpiece as [Hpiece Hkept].
  split; [exact Hkept |]. split; [apply strip_idem |].
  apply has_char_strip.
  pose proof (split_pieces_free "," tags_str) as Hfree.
  apply (proj1 (Forall_forall _ _) Hfree). by apply list_elem_of_In.
Qed.

(** X2: the [data-tags] attribute reads back as the tags: cleaning the
    tags joined by a comma and a space gives the tags again. *)
Theorem clean_tags_of_attribute tags_str :
  clean_tags (join ", " (clean_tags tags_str)) = clean_tags tags_str.
Proof. apply (clean_tags_join_padded ""); [done | apply clean_tags_all_clean]. Qed.

Lemma split_all_space s :
  forallb all_space (split "," s) = only_separators s.
Proof.
  induction s as [|c s IH]; [done |]. cbn [split only_separators].
  destruct (Ascii.eqb c ",") eqn:E; [by rewrite <- IH |].
  pose proof (split_nonempty "," s) as Hne.
  destruct (split "," s) as [|hd tl]; [done |].
  rewrite <- IH. simpl. by rewrite andb_assoc.
Qed.

Lemma clean_tags_nil_iff tags_str :
  clean_tags tags_str = [] <-> only_separators tags_str = true.
Proof.
  rewrite <- split_all_space. unfold clean_tags.
  induction (split "," tags_str) as [|p l IH]; [done |].
  cbn [List.filter forallb]. rewrite truthy_strip.
  destruct (all_space p); simpl; [exact IH | done].
Qed.

(** X3: the list of cleaned tags is empty, and the insertion stops with
    the tag error, exactly when the tag string holds nothing but commas
    and white space. *)
Theorem clean_tags_empty_iff tags_str :
  clean_tags tags_str = [] <-> only_separators tags_str = true.
Proof.
  rewrite <- split_all_space. unfold clean_tags.
  induction (split "," tags_str) as [|piece pieces IH]; [done |].
  cbn [List.filter forallb]. rewrite truthy_strip.
  destruct (all_space piece); cbn [negb andb]; [| done].
  exact IH.
Qed.

End Tags.

(** ** More on the file name and the allocator *)
Module Naming.
Import PyStr Spec More StrFacts FilenameFacts AllocFacts Soup Blog.
#[local] Arguments String.append !_ _ / : simpl nomatch.

(** X4: the normalized file name always ends with [.html] in some
    casing, and normalizing it again changes nothing. *)
Theorem html_filename_settled post_filename :
  html_suffix (html_filename post_filename)
  /\ html_filename (html_filename post_filename) = html_filename post_filename.
Proof.
  assert (endswith (lower (html_filename post_filename)) ".html" = true) as H.
  { unfold html_filename.
    destruct (endswith (lower post_filename) ".html") eqn:E; [done |].
    cbn [negb]. rewrite lower_app. apply endswith_spec. by exists (lower post_filename). }
  split; [by apply lowered_suffix_spec |].
  unfold html_filename at 1. by rewrite H.
Qed.

(** *** Decimal numerals *)
Lemma int_acc_numeral acc d :
  int_acc acc (NilEmpty.string_of_uint d) = uint_val acc d.
Proof.
  revert acc. induction d; intros acc; cbn [NilEmpty.string_of_uint int_acc uint_val];
    rewrite ?IHd; try done; f_equal; unfold digit_value; simpl; lia.
Qed.

Lemma uint_val_pos d acc :
  uint_val (N.pos acc) d = N.pos (Pos.of_uint_acc d acc).
Proof.
  revert acc. induction d; intros acc; cbn [uint_val Pos.of_uint_acc]; try done.
  all: rewrite <- IHd; f_equal; lia.
Qed.

Lemma uint_val_zero d : uint_val 0 d = N.of_uint d.
Proof.
  unfold N.of_uint.
  induction d; cbn [uint_val Pos.of_uint]; try done.
  all: apply (uint_val_pos d).
Qed.

(** The digits read back give the number written. *)
Lemma int_str n : int_of_digits (numeral n) = n.
Proof.
  unfold int_of_digits, numeral. rewrite <- (DecimalN.Unsigned.of_to n) at 2.
  rewrite <- uint_val_zero, <- int_acc_numeral.
  by destruct (N.to_uint n).
Qed.

Lemma all_digits_numeral d : all_digits (NilEmpty.string_of_uint d) = true.
Proof. induction d; simpl; done. Qed.

Lemma str_digits n : truthy (numeral n) = true /\ all_digits (numeral n) = true.
Proof.
  unfold numeral. destruct (N.to_uint n) eqn:E; try done.
  all: split; [done |]; apply (all_digits_numeral (_ u)) || apply all_digits_numeral.
Qed.

(** *** The length of a numeral *)
Lemma length_numeral_uint d :
  String.length (NilEmpty.string_of_uint d) = Decimal.nb_digits d.
Proof. induction d; cbn [NilEmpty.string_of_uint String.length Decimal.nb_digits]; by rewrite ?IHd. Qed.

Lemma uint_val_ge acc d :
  acc * 10 ^ N.of_nat (Decimal.nb_digits d) <= uint_val acc d.
Proof.
  revert acc. induction d; intros acc; cbn [uint_val Decimal.nb_digits];
    [rewrite N.pow_0_r; lia | ..].
  all: rewrite Nat2N.inj_succ, N.pow_succ_r';
    match goal with |- _ <= uint_val ?a _ => specialize (IHd a) end; nia.
Qed.

(** A numeral is canonical: the numeral of its own value. *)
Lemma to_uint_canonical n : Decimal.unorm (N.to_uint n) = N.to_uint n.
Proof.
  rewrite <- (DecimalN.Unsigned.to_of (N.to_uint n)).
  by rewrite DecimalN.Unsigned.of_to.
Qed.

(** A number below [10 ^ d] is written with [d] digits at most. *)
Lemma numeral_length n d :
  (0 < d)%nat -> n < 10 ^ N.of_nat d -> (String.length (numeral n) <= d)%nat.
Proof.
  intros Hd Hn. unfold numeral.
  pose proof (to_uint_canonical n) as Hcan.
  pose proof (DecimalN.Unsigned.of_to n) as Hval.
  rewrite <- uint_val_zero in Hval.
  destruct (N.to_uint n) as [| u | u | u | u | u | u | u | u | u | u] eqn:E;
    cbn [NilZero.string_of_uint NilEmpty.string_of_uint String.length];
    [lia | | ..].
  { (* a leading zero: the numeral is 0 *)
    unfold Decimal.unorm in Hcan. cbn [Decimal.nzhead] in Hcan.
    destruct (Decimal.nzhead u) eqn:Ez; try (exfalso; by apply (DecimalFacts.nzhead_nonzero u u); rewrite Ez, Hcan).
    all: try (injection Hcan as <-; cbn; lia).
    all: exfalso; apply (DecimalFacts.nzhead_nonzero u u); by rewrite Ez, Hcan. }
  all: rewrite length_numeral_uint.
  all: cbn [uint_val] in Hval;
      match type of Hval with uint_val ?a _ = _ => pose proof (uint_val_ge a u) as Hge end;
      assert (~ (d <= Decimal.nb_digits u)%nat); [| lia];
      intros Hle;
      assert (10 ^ N.of_nat d <= 10 ^ N.of_nat (Decimal.nb_digits u))
        by (apply N.pow_le_mono_r; lia);
      nia.
Qed.

(** A string of [d] digits denotes a number below [10 ^ d]. *)
Lemma int_acc_lt acc s :
  all_digits s = true ->
  int_acc acc s < (acc + 1) * 10 ^ N.of_nat (String.length s).
Proof.
  revert acc. induction s as [|c s IH]; intros acc Hd; cbn [int_acc String.length].
  - rewrite N.pow_0_r. lia.
  - cbn [all_digits] in Hd. apply andb_prop in Hd as [Hc Hs].
    specialize (IH (10 * acc + digit_value c) Hs).
    rewrite Nat2N.inj_succ, N.pow_succ_r'.
    assert (digit_value c <= 9).
    { unfold isdigit in Hc. unfold digit_value.
      apply andb_prop in Hc as [_ H%N.leb_le]. lia. }
    nia.
Qed.

Lemma int_of_digits_lt s :
  all_digits s = true -> int_of_digits s < 10 ^ N.of_nat (String.length s).
Proof. intros H. pose proof (int_acc_lt 0 s H). unfold int_of_digits. lia. Qed.

(** *** The allocated identifier *)
Lemma max_of_ge x (l : list N) : x ∈ l -> x <= max_of l.
Proof.
  induction l as [|y l IH]; [by intros ?%elem_of_nil |].
  unfold max_of in *. cbn [foldr].
  intros [-> | H]%elem_of_cons; [lia |]. specialize (IH H). lia.
Qed.

Lemma max_of_app (a b : list N) : max_of (a ++ b) = N.max (max_of a) (max_of b).
Proof.
  unfold max_of. induction a as [|x a IH]; cbn [app foldr]; [lia |].
  rewrite IH. lia.
Qed.

Lemma max_of_lt B (l : list N) :
  0 < B -> Forall (fun x => x < B) l -> max_of l < B.
Proof.
  intros HB. unfold max_of. induction 1 as [|x l Hx _ IH]; cbn [foldr]; lia.
Qed.

(** What the loop does at an article whose identifier is [post] and
    decimal digits. *)
Lemma match_post_digits ds :
  truthy ds = true -> all_digits ds = true ->
  Re.match_post_num ("post" +:+ ds) = Some ds.
Proof.
  intros Ht Hd. unfold Re.match_post_num.
  rewrite (proj2 (strip_prefix_spec "post" _ ds)) by done.
  by rewrite (span_digits_all _ Hd), Ht.
Qed.

Lemma match_post_digits_newline ds :
  truthy ds = true -> all_digits ds = true ->
  Re.match_post_num ("post" +:+ ds +:+ nl) = Some ds.
Proof.
  intros Ht Hd. unfold Re.match_post_num.
  rewrite (proj2 (strip_prefix_spec "post" _ (ds +:+ nl))) by done.
  by rewrite (span_digits_newline _ Hd), Ht.
Qed.

Lemma is_post_numeral k ats cs :
  lookup_attr "id" ats = Some ("post" +:+ numeral k) ->
  is_post (Tag "article" ats cs) = true.
Proof.
  intros Hid. destruct (str_digits k) as [Ht Hd].
  unfold is_post. cbn [named attr]. rewrite Hid.
  assert (Re.search_post_id ("post" +:+ numeral k) = true) as ->.
  { apply search_post_id_spec. exists (numeral k). auto. }
  done.
Qed.

Lemma read_number_post k ats cs :
  lookup_attr "id" ats = Some ("post" +:+ numeral k) ->
  read_number (Tag "article" ats cs) = Some k.
Proof.
  intros Hid. destruct (str_digits k) as [Ht Hd].
  unfold read_number. rewrite (is_post_numeral k ats cs Hid).
  unfold get. cbn [attr]. rewrite Hid, (match_post_digits _ Ht Hd). cbn.
  by rewrite int_str.
Qed.

Lemma digits_read_post k ats cs :
  lookup_attr "id" ats = Some ("post" +:+ numeral k) ->
  digits_read (Tag "article" ats cs) = Some (String.length (numeral k)).
Proof.
  intros Hid. destruct (str_digits k) as [Ht Hd].
  unfold digits_read. rewrite (is_post_numeral k ats cs Hid).
  unfold get. cbn [attr]. by rewrite Hid, (match_post_digits _ Ht Hd).
Qed.

(** An entry of the specification is read by the loop with its number. *)
Lemma entry_number_read n j : entry_number n = Some j -> read_number n = Some j.
Proof.
  unfold entry_number, read_number, is_post, get.
  destruct (named "article" n); [| done]. cbn [andb].
  destruct (attr "id" n) as [v|]; [| done]. cbn.
  intros (ds & Ht & Hd & -> & ->)%post_number_spec.
  assert (Re.search_post_id ("post" +:+ ds) = true) as ->.
  { apply search_post_id_spec. exists ds. auto. }
  by rewrite (match_post_digits _ Ht Hd).
Qed.

(** What the loop reads at a node is shorter than the identifier of the
    node. *)
Lemma read_short lim n :
  lim <> 0 ->
  (forall v, attr "id" n = Some v -> N.of_nat (String.length v) <= lim) ->
  readable lim n = true
  /\ forall k, read_number n = Some k -> k < 10 ^ (lim - 1).
Proof.
  intros Hlim Hshort. unfold readable, digits_read, read_number.
  destruct (is_post n) eqn:Hp; [| done].
  unfold is_post in Hp. apply andb_prop in Hp as [_ Hp]. unfold get.
  destruct (attr "id" n) as [v|] eqn:Ev; [| done].
  specialize (Hshort v eq_refl).
  apply search_post_id_spec in Hp as (ds & Ht & Hd & Hv).
  assert (Re.match_post_num v = Some ds
          /\ (String.length ds < String.length v)%nat) as [-> Hlen].
  { destruct Hv as [-> | ->].
    - split; [by apply match_post_digits |]. rewrite length_app. simpl. lia.
    - split; [by apply match_post_digits_newline |].
      rewrite !length_app. simpl. lia. }
  cbn [fmap option_fmap option_map]. split.
  - unfold exceeds. apply negb_true_iff, andb_false_iff. right.
    apply N.ltb_ge. lia.
  - intros k [= <-]. pose proof (int_of_digits_lt ds Hd) as Hlt.
    assert (10 ^ N.of_nat (String.length ds) <= 10 ^ (lim - 1))
      by (apply N.pow_le_mono_r; lia).
    lia.
Qed.

(** The allocator returns on a document whose identifiers are within
    the digit limit. *)
Lemma allocation_within lim soup :
  ids_within lim soup ->
  find_next_post_id lim soup
  = Returned
      ("post"
       +:+ numeral (max_of (omap (fun e => read_number (snd e)) (descendants soup)) + 1)).
Proof.
  intros Hwithin.
  destruct (N.eq_dec lim 0) as [-> | Hlim]; [apply find_next_post_id_no_limit |].
  destruct Hwithin as [-> | Hshort]; [done |].
  assert (Forall (fun e => readable lim (snd e) = true
                           /\ forall k, read_number (snd e) = Some k ->
                                        k < 10 ^ (lim - 1))
            (descendants soup)) as Hall.
  { apply Forall_forall. intros e He. apply read_short; [done |].
    intros v Hv. by apply (Hshort e v). }
  rewrite find_next_post_id_readable
    by (eapply Forall_impl; [exact Hall | by intros e [? _]]).
  cbv zeta.
  set (m := max_of (omap (fun e => read_number (snd e)) (descendants soup))).
  assert (m < 10 ^ (lim - 1)) as Hm.
  { apply max_of_lt; [apply N.neq_0_lt_0, N.pow_nonzero; lia |].
    apply Forall_forall. intros k (e & He & Hk)%list_elem_of_omap.
    by apply (proj1 (Forall_forall _ _) Hall e He). }
  assert (exceeds lim (String.length (numeral (m + 1))) = false) as ->; [| done].
  unfold exceeds. apply andb_false_iff. right. apply N.ltb_ge.
  assert (String.length (numeral (m + 1)) <= N.to_nat lim)%nat; [| lia].
  apply numeral_length; [lia |]. rewrite N2Nat.id.
  assert (10 ^ lim = 10 * 10 ^ (lim - 1)) as ->; [| lia].
  rewrite <- N.pow_succ_r'. f_equal. lia.
Qed.

(** X5: on a document whose identifiers are within the digit limit the
    allocator returns; and whenever it returns, the identifier is [post]
    followed by the decimal numeral of a number that exceeds the number
    of every entry of the document, and no article of the document
    carries it. *)
Theorem find_next_post_id_fresh lim soup :
  (ids_within lim soup ->
   exists next_id, find_next_post_id lim soup = Returned next_id)
  /\ forall next_id,
       find_next_post_id lim soup = Returned next_id ->
       exists k,
         next_id = "post" +:+ numeral k
         /\ post_number next_id = Some k
         /\ (forall e j, e ∈ descendants soup -> entry_number (snd e) = Some j ->
                         j < k)
         /\ (forall e, e ∈ descendants soup -> named "article" (snd e) = true ->
                       attr "id" (snd e) <> Some next_id).
Proof.
  split; [intros H; rewrite (allocation_within lim soup H); eauto |].
  intros next_id (_ & _ & ->)%find_next_post_id_returned.
  set (m := max_of (omap (fun e => read_number (snd e)) (descendants soup))).
  destruct (str_digits (m + 1)) as [Ht Hd].
  assert (post_number ("post" +:+ numeral (m + 1)) = Some (m + 1)) as Hnum.
  { apply post_number_spec. exists (numeral (m + 1)). by rewrite int_str. }
  assert (forall e j, e ∈ descendants soup -> entry_number (snd e) = Some j ->
                      j < m + 1) as Hlt.
  { intros e j He Hj. apply entry_number_read in Hj.
    assert (j <= m); [| lia]. apply max_of_ge.
    apply list_elem_of_omap. by exists e. }
  exists (m + 1). repeat split; try done.
  intros e He Hart Hid.
  assert (entry_number (snd e) = Some (m + 1)) as Hj.
  { unfold entry_number. rewrite Hart, Hid. exact Hnum. }
  specialize (Hlt e _ He Hj). lia.
Qed.

(** X6: on a document in which no identifier ends with a line feed and
    none is longer than the digit limit, the allocator returns [post]
    followed by M + 1, M the largest number of an article whose
    identifier is exactly [post] and digits, and 0 when there is none. *)
Theorem allocation_on_tidy_documents lim soup :
  (forall e v, e ∈ descendants soup -> attr "id" (snd e) = Some v ->
               endswith v nl = false) ->
  ids_within lim soup ->
  find_next_post_id lim soup = Returned (next_post_id soup).
Proof.
  intros Htidy Hwithin. rewrite (allocation_within lim soup Hwithin).
  unfold next_post_id. do 5 f_equal. apply omap_ext_in. intros e He.
  apply read_number_exact. intros v Hv.
  exact (Htidy e v He Hv).
Qed.

(** *** The allocator after a splice *)
Lemma read_number_label n : read_number n = number_of_label (label n).
Proof. by destruct n. Qed.

Lemma readable_from_label lim n : readable lim n = readable_label lim (label n).
Proof. by destruct n. Qed.

Lemma numbers_labels (l : list (path * node)) :
  omap (fun e => read_number (snd e)) l = omap number_of_label (labels l).
Proof.
  unfold labels. induction l as [|[q m] l IH]; [done |].
  cbn [map]. rewrite !omap_cons, IH. cbn [snd]. by rewrite read_number_label.
Qed.

Lemma readable_labels lim (l : list (path * node)) :
  Forall (fun e => readable lim (snd e) = true) l
  <-> Forall (fun x => readable_label lim x = true) (labels l).
Proof.
  unfold labels. rewrite Forall_map. apply Forall_proper; [| done].
  intros e. cbn. by rewrite readable_from_label.
Qed.

Lemma labels_spliced text new_post p soup nm ats cs :
  get_at p soup = Some (Tag nm ats cs) ->
  exists a1 a2,
    labels (descendants soup) = a1 ++ a2
    /\ labels (descendants (with_new_post' text p new_post soup))
       = a1 ++ inr text :: labels (walk new_post) ++ a2.
Proof.
  intros Hget. unfold with_new_post'. rewrite SoupFacts.alter_at_compose.
  destruct (EntryFacts.labels_walk_splice (NavigableString text) new_post p soup
              nm ats cs Hget) as (a1 & a2 & E1 & E2).
  rewrite (EntryFacts.labels_descendants soup) in E1.
  rewrite (EntryFacts.labels_descendants (alter_at _ _ _)) in E2.
  injection E1 as E1. injection E2 as _ E2. by exists a1, a2.
Qed.

Lemma no_posts_no_numbers (l : list (path * node)) :
  List.filter (fun e => is_post (snd e)) l = [] ->
  omap (fun e => read_number (snd e)) l = []
  /\ forall lim, Forall (fun e => readable lim (snd e) = true) l.
Proof.
  induction l as [|e l IH]; [done |]. cbn [List.filter]. rewrite omap_cons.
  unfold read_number at 1.
  destruct (is_post (snd e)) eqn:Hp; [done |]. intros H.
  destruct (IH H) as [IH1 IH2]. split; [done |].
  intros lim. constructor; [| apply IH2].
  unfold readable, digits_read. by rewrite Hp.
Qed.

(** X7: once an article with the allocated identifier, holding no other
    post, is put in front of a container with a string before it, the
    allocator gives the next number: it returns [post] followed by the
    numeral of that number, or raises when that numeral is beyond the
    digit limit. *)
Theorem allocation_follows_splice lim text p soup nm ats cs new_ats new_cs next_id :
  get_at p soup = Some (Tag nm ats cs) ->
  find_next_post_id lim soup = Returned next_id ->
  lookup_attr "id" new_ats = Some next_id ->
  find_all is_post (Tag "article" new_ats new_cs) = [] ->
  exists k,
    next_id = "post" +:+ numeral k
    /\ find_next_post_id lim
         (with_new_post' text p (Tag "article" new_ats new_cs) soup)
       = if exceeds lim (String.length (numeral (k + 1)))
         then Raised (msg_limit_str lim)
         else Returned ("post" +:+ numeral (k + 1)).
Proof.
  intros Hget Hfirst Hid Hnone.
  apply find_next_post_id_returned in Hfirst as (Hread & Hfits & ->).
  destruct (labels_spliced text (Tag "article" new_ats new_cs) p soup nm ats cs Hget)
    as (a1 & a2 & E1 & E2).
  rewrite numbers_labels, E1 in Hid, Hfits |- *.
  apply readable_labels in Hread. rewrite E1 in Hread.
  apply Forall_app in Hread as [Hr1 Hr2].
  set (m := max_of (omap number_of_label (a1 ++ a2))) in *.
  exists (m + 1). split; [done |].
  destruct (no_posts_no_numbers _ Hnone) as [Hnum Hrd].
  assert (omap number_of_label (labels (walk (Tag "article" new_ats new_cs)))
          = [m + 1]) as Hnew.
  { rewrite EntryFacts.labels_descendants, omap_cons. cbn [label number_of_label].
    rewrite (read_number_post (m + 1)) by done.
    f_equal. by rewrite <- numbers_labels. }
  rewrite find_next_post_id_readable.
  - cbv zeta. rewrite numbers_labels, E2.
    rewrite omap_app, omap_cons. cbn [number_of_label]. rewrite omap_app, Hnew.
    assert (max_of (omap number_of_label a1 ++ [m + 1] ++ omap number_of_label a2)
            = m + 1) as ->; [| done].
    rewrite !max_of_app. subst m. rewrite omap_app, max_of_app.
    unfold max_of at 2. cbn [foldr]. lia.
  - apply readable_labels. rewrite E2.
    apply Forall_app. split; [done |]. constructor; [done |].
    apply Forall_app. split; [| done].
    rewrite EntryFacts.labels_descendants. constructor.
    + cbn [label readable_label]. unfold readable.
      rewrite (digits_read_post (m + 1)) by done. by rewrite Hfits.
    + apply readable_labels, Hrd.
Qed.
End Naming.
(** ** More on the insertion *)
Module Outcomes.
Import PyStr Spec More Soup Eff Blog FsFacts RunFacts Insertion.

(** X8: a failure whose message is not the one of the write step has
    touched no file: there is no backup and the page is as it was. *)
Theorem early_failures_touch_nothing
  P F path title tags desc rt date fn w msg w' :
  add_blog_post P F path title tags desc rt date fn w = (Returned (false, msg), w') ->
  (forall e, msg <> msg_write path e) ->
  names w' = names w.
Proof.
  intros Hrun Hmsg. run_cases P F; rewrite ?names_warned; try done.
  all: by (exfalso; eapply Hmsg).
Qed.

(** X9: the operation prints nothing, or the one line of the fallback
    warning. *)
Theorem console_gets_the_warning_only
  P F path title tags desc rt date fn w :
  let w' := snd (add_blog_post P F path title tags desc rt date fn w) in
  console w' = console w \/ console w' = console w ++ [msg_fallback].
Proof.
  intros w'. subst w'.
  destruct (add_blog_post P F path title tags desc rt date fn w) as [r w'] eqn:Hrun.
  cbn [snd]. run_cases P F.
  all: try (by left).
  all: match goal with |- context [warned ?b _] => destruct b end; cbn; auto.
Qed.

(** X10: when the page is a regular file and is read, the two parses,
    the allocation of the identifier, the printer and the encoder
    return, a container is found, the tags are not all blank, the place
    of the backup is reached, is no directory and is not the page
    itself, and no input or output fault occurs, the insertion succeeds;
    the copy holds the old bytes, the page the printed document, and no
    other name has changed. *)
Theorem insertion_succeeds
  P F path title tags desc rt date fn w
  r raw content soup p main_content yes next_id html new_soup q new_post text b t :
  truthy path = true ->
  locate w path = Some r -> names w !! r = Some (Regular raw) ->
  read_fault F = None -> copy_fault F = None ->
  open_fault F = None -> write_fault F = None ->
  decode P raw = Returned content ->
  BeautifulSoup P content = Returned soup ->
  container soup = Some (p, main_content, yes) ->
  find_next_post_id (int_max_str_digits P) soup = Returned next_id ->
  synthesize next_id title tags desc rt date fn = Some html ->
  BeautifulSoup P html = Returned new_soup ->
  find (named "article") new_soup = Some (q, new_post) ->
  prettify P (with_new_post p new_post soup) = Returned text ->
  encode P text = Returned b ->
  samefile w path (backup_name P w path) = false ->
  locate w (backup_name P w path) = Some t ->
  names w !! t <> Some Directory ->
  exists msg w',
    add_blog_post P F path title tags desc rt date fn w = (Returned (true, msg), w')
    /\ names w' = <[r := Regular b]> (<[t := Regular raw]> (names w))
    /\ console w' = console (warned yes w)
    /\ file_at w' path = Some b
    /\ file_at w' (backup_name P w path) = Some raw.
Proof.
  intros Hp Hloc Hreg Hrf Hcf Hof Hwf Hdec Hparse Hcont Hid Hsyn Hnew Hart
    Hpretty Henc Hsame Ht Hnd.
  rewrite (add_blog_post_run P F), Hloc, Hreg, Hp, Hrf, Hdec, Hparse, Hcont, Hid,
    Hsyn.
  cbn [negb fst]. rewrite (insert_new_post_run P), Hnew, Hart. cbn [snd].
  rewrite (write_back_run P F _ path _ _ w r raw Hloc Hreg). cbv zeta.
  rewrite Hsame. unfold truncate. rewrite Ht.
  destruct (two_files w path _ r t raw Hloc Hreg Hsame Ht)
    as (_ & _ & _ & _ & Hpage & Hcopy).
  assert (forall x, match names w !! t with
                    | Some Directory => (@Raised string x, w)
                    | _ => (Returned t, store t [] w)
                    end = (Returned t, store t [] w)) as Hopen.
  { intros x. by destruct (names w !! t) as [[| ? | ?]|]. }
  rewrite Hopen, Hcf, Hof, Hpretty, Henc, Hwf.
  eexists _, _. split; [reflexivity |].
  rewrite names_warned, !file_at_warned, Hpage, Hcopy.
  repeat split; try done. by destruct yes.
Qed.

(** The form passes its own checks exactly when every field holds
    something, the description something other than white space. *)
Lemma validate_inputs_passes f :
  validate_inputs f = None
  <-> truthy (file_path_var f) = true /\ truthy (title_entry f) = true
      /\ truthy (tags_entry f) = true /\ all_space (desc_text f) = false
      /\ truthy (read_time_entry f) = true /\ truthy (date_var f) = true
      /\ truthy (filename_entry f) = true.
Proof.
  unfold validate_inputs, desc_get. rewrite Tags.truthy_strip.
  rewrite StrFacts.all_space_app. change (all_space nl) with true.
  rewrite andb_true_r.
  destruct (truthy (file_path_var f)), (truthy (title_entry f)),
    (truthy (tags_entry f)), (all_space (desc_text f)),
    (truthy (read_time_entry f)), (truthy (date_var f)),
    (truthy (filename_entry f)); cbn; split; (done || intuition discriminate).
Qed.

(** A run on a tag string without tags. *)
Lemma empty_tags_outcome P F path title tags desc rt date fn w :
  clean_tags tags = [] ->
  let run := add_blog_post P F path title tags desc rt date fn w in
  names (snd run) = names w
  /\ match fst run with
     | Returned (ok, _) => ok = false
     | Raised e =>
         exists content soup,
           fst (read_text P F path w) = Returned content
           /\ BeautifulSoup P content = Returned soup
           /\ find_next_post_id (int_max_str_digits P) soup = Raised e
     end.
Proof.
  intros Htags run. subst run.
  destruct (add_blog_post P F path title tags desc rt date fn w) as [o w'] eqn:Hrun.
  cbn [fst snd].
  rewrite (add_blog_post_run P F) in Hrun.
  repeat case_match; simplify_eq; rewrite ?names_warned; try done.
  all: try match goal with
         | H : synthesize _ _ _ _ _ _ _ = Some _ |- _ =>
             rewrite (Synthesis.synthesize_none _ _ _ _ _ _ _ Htags) in H;
             discriminate H
         end.
  split; [done |].
  match goal with
  | Hl : locate _ _ = Some _, Hn : names _ !! _ = Some (Regular _),
    Hr : read_fault _ = None |- _ =>
      rewrite (read_text_file _ _ _ _ _ _ Hl Hn Hr)
  end.
  cbn [fst]. eauto.
Qed.

(** X11: a form whose fields all hold something, the tag field only
    commas and white space, passes the checks of the form, and the core
    operation then refuses it: no file has changed and no success is
    shown; when the allocation of the identifier returns, the dialog is
    the error one. *)
Theorem separators_pass_the_form P F f w :
  truthy (file_path_var f) = true -> truthy (title_entry f) = true ->
  truthy (tags_entry f) = true -> all_space (desc_text f) = false ->
  truthy (read_time_entry f) = true -> truthy (date_var f) = true ->
  truthy (filename_entry f) = true ->
  only_separators (tags_entry f) = true ->
  validate_inputs f = None
  /\ names (snd (submit_post P F f w)) = names w
  /\ (forall msg,
        fst (submit_post P F f w) <> Returned (showinfo "Success" msg))
  /\ (allocation_returns P F (file_path_var f) w ->
      exists msg, fst (submit_post P F f w) = Returned (showerror "Error" msg)).
Proof.
  intros H1 H2 H3 H4 H5 H6 H7 Hsep.
  assert (validate_inputs f = None) as Hvalid.
  { apply validate_inputs_passes. done. }
  split; [done |].
  apply Tags.clean_tags_nil_iff in Hsep.
  pose proof (empty_tags_outcome P F (file_path_var f) (title_entry f)
                (tags_entry f) (submitted_description f) (read_time_entry f)
                (date_var f) (filename_entry f) w Hsep) as Hrun.
  cbv zeta in Hrun. unfold submit_post, bind. rewrite Hvalid.
  destruct (add_blog_post P F (file_path_var f) (title_entry f) (tags_entry f)
              (submitted_description f) (read_time_entry f) (date_var f)
              (filename_entry f) w) as [[[ok msg]|e] w'].
  - cbn [fst snd] in Hrun. destruct Hrun as [Hnames ->]. cbn [fst snd ret].
    split; [done |]. split; [done |]. eauto.
  - cbn [fst snd] in Hrun.
    destruct Hrun as (Hnames & content & soup & Hread & Hparse & Hraise).
    cbn [fst snd]. split; [done |]. split; [done |].
    intros Halloc. destruct (Halloc content soup Hread Hparse) as [next_id Hid].
    congruence.
Qed.

End Outcomes.

(** ** More on the git worker, and the window *)
Module Pushing.
Import PyStr Spec More Git Gui Worker.

Section Traces.
Variable machine : Type.
Variable popen_communicate : list string -> string -> machine -> completion * machine.

(** X12: each command is launched in the repository, right after the
    line of the log that announces it. *)
Theorem launch_is_announced repo todo m tr1 cmd cwd tr2 :
  fst (run_from machine popen_communicate repo todo m) = tr1 ++ Launch cmd cwd :: tr2 ->
  cwd = repo /\ exists tr0, tr1 = tr0 ++ [announce cmd].
Proof.
  revert m tr1. induction todo as [|cmd0 rest IH]; intros m tr1 H.
  - destruct tr1 as [|? [|? ?]]; discriminate H.
  - pose proof (trace_from_cons machine popen_communicate repo cmd0 rest m) as E.
    destruct (popen_communicate cmd0 repo m) as [c m']. rewrite E in H. clear E.
    destruct tr1 as [|e1 tr1]; [discriminate H |].
    injection H as <- H.
    destruct tr1 as [|e2 tr1].
    { injection H as <- <- _. split; [done |]. by exists []. }
    injection H as <- H.
    destruct tr1 as [|e3 tr1]; [discriminate H |].
    injection H as <- H.
    apply split_past_emits in H as (t & -> & H); [| apply reports_emits | done].
    destruct (succeeded c) eqn:Hc.
    + destruct (IH m' t H) as (-> & tr0 & ->). split; [done |].
      exists (announce cmd0 :: Launch cmd0 repo :: Complete c :: reports c ++ tr0).
      cbn [app]. by rewrite <- app_assoc.
    + destruct t as [|? [|? ?]]; discriminate H.
Qed.

Lemma deliver_outputs (sigs : list signal) win :
  Forall (fun s => terminal s = false) sigs ->
  fold_left deliver sigs win
  = Window (repo_path win) (msg_input win) (push_button_enabled win)
      (log_output win
       ++ omap (fun s => match s with output t => Some t | _ => None end) sigs)
      (boxes win).
Proof.
  intros H. revert win. induction H as [|s sigs Hs _ IH]; intros win.
  - cbn. rewrite app_nil_r. by destruct win.
  - destruct s as [t| |e]; try discriminate Hs.
    cbn [fold_left deliver]. rewrite IH. cbn. by rewrite <- app_assoc.
Qed.

Lemma outputs_signals tr :
  omap (fun s => match s with output t => Some t | _ => None end) (signals tr)
  = outputs tr.
Proof.
  unfold signals, outputs. induction tr as [|[| |[]] tr IH]; cbn; by rewrite ?IH.
Qed.

(** X13: a click with a repository and a message that is not blank runs
    the worker with the trimmed message; once its signals are delivered
    the button is enabled again, the log holds the outputs of the run and
    one last line, one box was shown, and the message field is emptied
    exactly when the run finished, which it does when the three commands
    ran to status zero. *)
Theorem window_after_run win m :
  truthy (repo_path win) = true ->
  all_space (msg_input win) = false ->
  let '(win', tr, m') := on_push_clicked machine popen_communicate win m in
  (tr, m') = run machine popen_communicate (repo_path win) (strip (msg_input win)) m
  /\ exists tr0 s,
       tr = tr0 ++ [Emit s]
       /\ terminal s = true
       /\ repo_path win' = repo_path win
       /\ push_button_enabled win' = true
       /\ log_output win' = outputs tr0 ++ [last_line s]
       /\ boxes win' = boxes win ++ [last_box s]
       /\ msg_input win' = (if s is finished then EmptyString else msg_input win)
       /\ (s = finished
           <-> map fst (launches tr) = cmds (strip (msg_input win))
               /\ length (completions tr) = 3%nat
               /\ Forall (fun c => succeeded c = true) (completions tr)).
Proof.
  intros Hrepo Hmsg. unfold on_push_clicked.
  rewrite Hrepo, Tags.truthy_strip, Hmsg. cbn [negb].
  destruct (run machine popen_communicate (repo_path win) (strip (msg_input win)) m)
    as [tr m'] eqn:Hrun.
  split; [done |].
  destruct (terminal_signal machine popen_communicate (repo_path win)
              (cmds (strip (msg_input win))) m) as (tr0 & s & Htr & Hs & Hall & Hfin).
  unfold run in Hrun. rewrite Hrun in Htr. cbn [fst] in Htr. subst tr.
  exists tr0, s. split; [done |]. split; [done |].
  rewrite signals_app, fold_left_app, (deliver_outputs _ _ Hall), outputs_signals.
  rewrite completions_app, launches_app.
  change (completions [Emit s]) with (@nil completion).
  change (launches [Emit s]) with (@nil (list string * string)).
  rewrite !app_nil_r.
  destruct s as [t| |e]; [discriminate Hs | |]; cbn; repeat split; try done.
  all: try (by apply Hfin). 
Qed.

(** X14: a click without a repository, or with a message of white space
    only, launches nothing and changes nothing but for one warning box. *)
Theorem refused_click win m :
  truthy (repo_path win) = false \/ all_space (msg_input win) = true ->
  exists b,
    on_push_clicked machine popen_communicate win m = (show b win, [], m)
    /\ match b with warning _ _ => True | _ => False end.
Proof.
  unfold on_push_clicked. rewrite Tags.truthy_strip.
  destruct (truthy (repo_path win)); cbn [negb].
  - intros [? | ->]; [done |]. cbn [negb]. by eexists.
  - intros _. by eexists.
Qed.

End Traces.
End Pushing.

(** ** The further theorems at the sample inputs *)
Module MoreChecks.
Import PyStr Spec More Soup Eff Blog Git Gui.

(** No identifier of the sample page is longer than 9 characters. *)
Lemma home_ids :
  Forall (fun e => forall v, attr "id" (snd e) = Some v ->
                             endswith v nl = false
                             /\ N.of_nat (String.length v) <= default_max_str_digits)
    (descendants Demo.home).
Proof.
  vm_compute descendants.
  repeat (apply Forall_cons_2;
          [intros v' Hv'; vm_compute in Hv'; try discriminate Hv';
           injection Hv' as <-; by vm_compute |]).
  apply Forall_nil_2.
Qed.

Lemma home_within : ids_within default_max_str_digits Demo.home.
Proof.
  right. intros e v He Hv.
  by destruct (proj1 (Forall_forall _ _) home_ids e He v Hv).
Qed.

Lemma find_next_post_id_fresh_witness :
  ids_within default_max_str_digits Demo.home
  /\ find_next_post_id default_max_str_digits Demo.home = Returned "post3"
  /\ exists k, "post3" = "post" +:+ numeral k /\ post_number "post3" = Some k.
Proof.
  split; [exact home_within |]. split; [by vm_compute |].
  destruct (Naming.find_next_post_id_fresh default_max_str_digits Demo.home)
    as [Hret Hfresh].
  destruct (Hret home_within) as [next_id Hid].
  destruct (Hfresh next_id Hid) as (k & Hk & Hnum & _).
  assert (next_id = "post3") as -> by (vm_compute in Hid; congruence).
  by exists k.
Defined.

Lemma allocation_on_tidy_documents_witness :
  (forall e v, e ∈ descendants Demo.home -> attr "id" (snd e) = Some v ->
               endswith v nl = false)
  /\ ids_within default_max_str_digits Demo.home
  /\ find_next_post_id default_max_str_digits Demo.home
     = Returned (next_post_id Demo.home).
Proof.
  assert (forall e v, e ∈ descendants Demo.home -> attr "id" (snd e) = Some v ->
                      endswith v nl = false) as H.
  { intros e v He Hv.
    by destruct (proj1 (Forall_forall _ _) home_ids e He v Hv). }
  split; [exact H |]. split; [exact home_within |].
  exact (Naming.allocation_on_tidy_documents default_max_str_digits Demo.home H
           home_within).
Defined.

Lemma allocation_follows_splice_witness :
  (get_at [0; 0; 1]%nat Demo.home
   = Some (Tag "main" [("id", "blogPosts")] [Demo.post "post2"; Demo.post "post1"])
   /\ find_next_post_id default_max_str_digits Demo.home = Returned "post3"
   /\ lookup_attr "id" [("class", "post-card"); ("id", "post3")] = Some "post3"
   /\ find_all is_post (Tag "article" [("class", "post-card"); ("id", "post3")] []) = [])
  /\ exists k,
       "post3" = "post" +:+ numeral k
       /\ find_next_post_id default_max_str_digits
            (with_new_post [0; 0; 1]%nat
               (Tag "article" [("class", "post-card"); ("id", "post3")] [])
               Demo.home)
          = if exceeds default_max_str_digits (String.length (numeral (k + 1)))
            then Raised (msg_limit_str default_max_str_digits)
            else Returned ("post" +:+ numeral (k + 1)).
Proof.
  split; [by vm_compute |].
  apply (Naming.allocation_follows_splice default_max_str_digits
           (nl +:+ spaces 6) [0; 0; 1]%nat Demo.home
           "main" [("id", "blogPosts")] [Demo.post "post2"; Demo.post "post1"]);
    by vm_compute.
Defined.

Lemma early_failures_touch_nothing_witness :
  (Demo.hello no_faults "nomain.html" "A, b"
   = (Returned (false, msg_no_main), Demo.disk)
   /\ forall e, msg_no_main <> msg_write "nomain.html" e)
  /\ names Demo.disk = names Demo.disk.
Proof.
  assert (Demo.hello no_faults "nomain.html" "A, b"
          = (Returned (false, msg_no_main), Demo.disk)) as Hrun by (by vm_compute).
  assert (forall e, msg_no_main <> msg_write "nomain.html" e) as Hmsg.
  { intros e H. cbv in H. discriminate H. }
  split; [by split |].
  exact (Outcomes.early_failures_touch_nothing Demo.toy no_faults "nomain.html"
           "Hello" "A, b" "World" "2 min read" "Jan 01, 2025" "hello" Demo.disk
           msg_no_main Demo.disk Hrun Hmsg).
Defined.

Lemma insertion_succeeds_witness :
  exists msg w' b,
    Demo.hello no_faults "blog.html" "A, b" = (Returned (true, msg), w')
    /\ file_at w' "blog.html" = Some b
    /\ file_at w' "blog.html.bak" = Some (Demo.bytes_of "HOME").
Proof.
  edestruct (Outcomes.insertion_succeeds Demo.toy no_faults "blog.html" "Hello"
               "A, b" "World" "2 min read" "Jan 01, 2025" "hello" Demo.disk
               "blog.html" (Demo.bytes_of "HOME") "HOME" Demo.home)
    as (msg & w' & Hrun & _ & _ & Hpage & Hcopy);
    [reflexivity .. | by vm_compute | | ].
  - by vm_compute.
  - exists msg, w'. eexists. split; [exact Hrun |]. split; [exact Hpage |].
    exact Hcopy.
Defined.

Lemma separators_pass_the_form_witness :
  (truthy "blog.html" = true /\ truthy "Hello" = true /\ truthy " , " = true
   /\ all_space "World" = false /\ truthy "2 min read" = true
   /\ truthy "Jan 01, 2025" = true /\ truthy "hello" = true
   /\ only_separators " , " = true)
  /\ validate_inputs (Form "blog.html" "Hello" " , " "World" "2 min read"
                        "Jan 01, 2025" "hello") = None
  /\ names (snd (submit_post Demo.toy no_faults
                   (Form "blog.html" "Hello" " , " "World" "2 min read"
                      "Jan 01, 2025" "hello") Demo.disk))
     = names Demo.disk.
Proof.
  split; [by vm_compute |].
  destruct (Outcomes.separators_pass_the_form Demo.toy no_faults
              (Form "blog.html" "Hello" " , " "World" "2 min read" "Jan 01, 2025"
                 "hello") Demo.disk eq_refl eq_refl eq_refl eq_refl eq_refl
              eq_refl eq_refl eq_refl)
    as (H1 & H2 & _).
  by split.
Defined.


Lemma launch_is_announced_witness :
  fst (run_from _ Demo.scripted "/repo" (cmds "msg") [Exited "" "" 1])
  = [announce ["git"; "add"; "."]]
    ++ Launch ["git"; "add"; "."] "/repo"
       :: [Complete (Exited "" "" 1);
           Emit (error "Command git add . failed with exit code 1")]
  /\ exists tr0, [announce ["git"; "add"; "."]] = tr0 ++ [announce ["git"; "add"; "."]].
Proof.
  assert (fst (run_from _ Demo.scripted "/repo" (cmds "msg") [Exited "" "" 1])
          = [announce ["git"; "add"; "."]]
            ++ Launch ["git"; "add"; "."] "/repo"
               :: [Complete (Exited "" "" 1);
                   Emit (error "Command git add . failed with exit code 1")])
    as H by reflexivity.
  split; [exact H |].
  exact (proj2 (Pushing.launch_is_announced _ _ _ _ _ _ _ _ _ H)).
Defined.

Lemma window_after_run_witness :
  (truthy (repo_path Samples.sample_window) = true
   /\ all_space (msg_input Samples.sample_window) = false)
  /\ let '(win', tr, m') :=
       on_push_clicked _ Demo.scripted Samples.sample_window
         [Exited "" "" 0; Exited "out" "" 0; Exited "" "" 0] in
     push_button_enabled win' = true.
Proof.
  split; [by vm_compute |].
  pose proof (Pushing.window_after_run _ Demo.scripted Samples.sample_window
                [Exited "" "" 0; Exited "out" "" 0; Exited "" "" 0]
                eq_refl eq_refl) as H.
  destruct (on_push_clicked _ Demo.scripted Samples.sample_window _) as [[win' tr] m'].
  by destruct H as (_ & tr0 & s & _ & _ & _ & H & _).
Defined.

Lemma refused_click_witness :
  (truthy (repo_path (Window "" "msg" true [] [])) = false
   \/ all_space (msg_input (Window "" "msg" true [] [])) = true)
  /\ exists b,
       on_push_clicked _ Demo.scripted (Window "" "msg" true [] []) []
       = (show b (Window "" "msg" true [] []), [], []).
Proof.
  assert (truthy (repo_path (Window "" "msg" true [] [])) = false
          \/ all_space (msg_input (Window "" "msg" true [] [])) = true) as H
    by (by left).
  split; [exact H |].
  destruct (Pushing.refused_click _ Demo.scripted (Window "" "msg" true [] []) [] H)
    as (b & Hb & _).
  by exists b.
Defined.
End MoreChecks.
